(** * The fly camera of learnopengl (src/camera.cpp)

    A shallow embedding of the [Camera] class and of what main.cpp does with
    it: the global camera, processInput, the two callbacks and the render
    loop, as far as it writes the globals.

    The class computes on C++ [float] (its fields, [deltaTime]) and [double]
    (the mouse and scroll offsets).  The embedding is written once, over an
    interface [FloatOps] that names every arithmetic operation the code
    performs, including the widening of a [float] to a [double] and the
    narrowing back that [yaw += xoffset] implies.  Properties that follow from
    the control and data flow alone are proved for every interpretation of the
    interface.  Properties that need the laws of arithmetic are proved for the
    interpretation in the real numbers, that is for exact arithmetic: the
    tolerance a floating-point run needs is zero there.  A second
    interpretation, in IEEE 754 binary32 and binary64, runs the same
    definitions on floats: the clamps are proved there up to NaN, and the
    concrete scenarios are evaluated. *)

From Stdlib Require Import Reals Lra Lia List Bool ZArith QArith Qreals Sorted.
From Stdlib Require Import Floats.SpecFloat.
Import ListNotations.

Set Implicit Arguments.

(** ** Arithmetic interface *)

(** [F] stands for [float] and [D] for [double]. *)
Class FloatOps (F D : Type) : Type := {
  (* a literal such as 89.0f, given by its exact decimal value *)
  flit : Q -> F;
  fadd : F -> F -> F;
  fsub : F -> F -> F;
  fmul : F -> F -> F;
  (* [fltb a b] is the C++ test a < b *)
  fltb : F -> F -> bool;
  dadd : D -> D -> D;
  dmul : D -> D -> D;
  (* implicit float -> double promotion and double -> float conversion *)
  to_double : F -> D;
  to_float : D -> F;
  (* cos and sin of <cmath>: the camera calls them unqualified, which
     selects the overloads on double; and glm's inversesqrt *)
  dcos : D -> D;
  dsin : D -> D;
  finversesqrt : F -> F;
  (* the factor of glm::radians, pi / 180 *)
  deg2rad : F
}.

(** The C++ test a > b. *)
Definition fgtb {F D : Type} {ops : FloatOps F D} (a b : F) : bool :=
  fltb b a.

(** ** The part of glm the camera uses *)

Module glm.

Record vec3 (F : Type) : Type := mk_vec3 { x : F; y : F; z : F }.

Section Ops.
Context {F D : Type} {ops : FloatOps F D}.

(* vec3 + vec3 *)
Definition add (a b : vec3 F) : vec3 F :=
  mk_vec3 (fadd (x a) (x b)) (fadd (y a) (y b)) (fadd (z a) (z b)).

(* vec3 - vec3 *)
Definition sub (a b : vec3 F) : vec3 F :=
  mk_vec3 (fsub (x a) (x b)) (fsub (y a) (y b)) (fsub (z a) (z b)).

(* vec3 * scalar *)
Definition scale (a : vec3 F) (s : F) : vec3 F :=
  mk_vec3 (fmul (x a) s) (fmul (y a) s) (fmul (z a) s).

(* glm::dot: the products are summed left to right *)
Definition dot (a b : vec3 F) : F :=
  fadd (fadd (fmul (x a) (x b)) (fmul (y a) (y b))) (fmul (z a) (z b)).

(* glm::cross *)
Definition cross (a b : vec3 F) : vec3 F :=
  mk_vec3 (fsub (fmul (y a) (z b)) (fmul (y b) (z a)))
          (fsub (fmul (z a) (x b)) (fmul (z b) (x a)))
          (fsub (fmul (x a) (y b)) (fmul (x b) (y a))).

(* glm::normalize: v * inversesqrt(dot(v, v)) *)
Definition normalize (v : vec3 F) : vec3 F :=
  scale v (finversesqrt (dot v v)).

(* glm::radians *)
Definition radians (degrees : F) : F := fmul degrees deg2rad.
End Ops.

End glm.

Import glm.

(** ** The camera *)

Inductive Camera_Movement : Type := FORWARD | BACKWARD | LEFT | RIGHT.

Definition Camera_Movement_eqb (a b : Camera_Movement) : bool :=
  match a, b with
  | FORWARD, FORWARD | BACKWARD, BACKWARD | LEFT, LEFT | RIGHT, RIGHT => true
  | _, _ => false
  end.

Record Camera (F : Type) : Type := mk_Camera {
  position : vec3 F;
  front : vec3 F;
  up : vec3 F;
  right : vec3 F;
  worldUp : vec3 F;
  yaw : F;
  pitch : F;
  movementSpeed : F;
  mouseSensitivity : F;
  zoom : F
}.

Section CameraOps.
Context {F D : Type} {ops : FloatOps F D}.

Definition DEFAULT_YAW : F := flit (-90 # 1).
Definition DEFAULT_PITCH : F := flit (0 # 1).
Definition DEFAULT_SPEED : F := flit (25 # 10).
Definition DEFAULT_SENSITIVITY : F := flit (1 # 10).
Definition DEFAULT_ZOOM : F := flit (45 # 1).

(* Field updates; a method of the class is a function from the state before
   the call to the state after it. *)
Definition set_position (c : Camera F) (v : vec3 F) : Camera F :=
  mk_Camera v (front c) (up c) (right c) (worldUp c) (yaw c) (pitch c)
            (movementSpeed c) (mouseSensitivity c) (zoom c).
Definition set_front (c : Camera F) (v : vec3 F) : Camera F :=
  mk_Camera (position c) v (up c) (right c) (worldUp c) (yaw c) (pitch c)
            (movementSpeed c) (mouseSensitivity c) (zoom c).
Definition set_up (c : Camera F) (v : vec3 F) : Camera F :=
  mk_Camera (position c) (front c) v (right c) (worldUp c) (yaw c) (pitch c)
            (movementSpeed c) (mouseSensitivity c) (zoom c).
Definition set_right (c : Camera F) (v : vec3 F) : Camera F :=
  mk_Camera (position c) (front c) (up c) v (worldUp c) (yaw c) (pitch c)
            (movementSpeed c) (mouseSensitivity c) (zoom c).
Definition set_yaw (c : Camera F) (a : F) : Camera F :=
  mk_Camera (position c) (front c) (up c) (right c) (worldUp c) a (pitch c)
            (movementSpeed c) (mouseSensitivity c) (zoom c).
Definition set_pitch (c : Camera F) (a : F) : Camera F :=
  mk_Camera (position c) (front c) (up c) (right c) (worldUp c) (yaw c) a
            (movementSpeed c) (mouseSensitivity c) (zoom c).
Definition set_zoom (c : Camera F) (a : F) : Camera F :=
  mk_Camera (position c) (front c) (up c) (right c) (worldUp c) (yaw c)
            (pitch c) (movementSpeed c) (mouseSensitivity c) a.

(* The vector new_front of updateCameraVectors.  The float angles are
   promoted for cos and sin, the products are taken on double and narrowed
   when they are stored in the float components. *)
Definition new_front (yaw pitch : F) : vec3 F :=
  mk_vec3 (to_float (dmul (dcos (to_double (radians yaw)))
                          (dcos (to_double (radians pitch)))))
          (to_float (dsin (to_double (radians pitch))))
          (to_float (dmul (dsin (to_double (radians yaw)))
                          (dcos (to_double (radians pitch))))).

Definition updateCameraVectors (c : Camera F) : Camera F :=
  let c := set_front c (normalize (new_front (yaw c) (pitch c))) in
  let c := set_right c (normalize (cross (front c) (worldUp c))) in
  set_up c (normalize (cross (right c) (front c))).

(* Constructor with vectors.  The member initialisers leave up and right
   unset; updateCameraVectors assigns both before the constructor returns,
   and front stands in for them until then. *)
Definition Camera_vectors (position worldUp : vec3 F) (yaw pitch : F)
  : Camera F :=
  let front0 := mk_vec3 (flit (0 # 1)) (flit (0 # 1)) (flit (-1 # 1)) in
  updateCameraVectors
    (mk_Camera position front0 front0 front0 worldUp yaw pitch
               DEFAULT_SPEED DEFAULT_SENSITIVITY DEFAULT_ZOOM).

(* Constructor with scalar values. *)
Definition Camera_scalars (posX posY posZ upX upY upZ yaw pitch : F)
  : Camera F :=
  let front0 := mk_vec3 (flit (0 # 1)) (flit (0 # 1)) (flit (-1 # 1)) in
  updateCameraVectors
    (mk_Camera (mk_vec3 posX posY posZ) front0 front0 front0
               (mk_vec3 upX upY upZ) yaw pitch
               DEFAULT_SPEED DEFAULT_SENSITIVITY DEFAULT_ZOOM).

(* GetViewMatrix, over glm::lookAt and its result type: the matrix
   returned, and the state the call leaves. *)
Definition GetViewMatrix {mat4 : Type}
    (lookAt : vec3 F -> vec3 F -> vec3 F -> mat4) (c : Camera F)
  : mat4 * Camera F :=
  (lookAt (position c) (add (position c) (front c)) (up c), c).

Definition processKeyboard (c : Camera F) (direction : Camera_Movement)
    (deltaTime : F) : Camera F :=
  let velocity := fmul (movementSpeed c) deltaTime in
  let c := if Camera_Movement_eqb direction FORWARD
           then set_position c (add (position c) (scale (front c) velocity))
           else c in
  let c := if Camera_Movement_eqb direction BACKWARD
           then set_position c (sub (position c) (scale (front c) velocity))
           else c in
  let c := if Camera_Movement_eqb direction LEFT
           then set_position c (sub (position c) (scale (right c) velocity))
           else c in
  if Camera_Movement_eqb direction RIGHT
  then set_position c (add (position c) (scale (right c) velocity))
  else c.

(* invertPitch is a parameter of the method; its body never reads it. *)
Definition processMouseMovement (c : Camera F) (xoffset yoffset : D)
    (invertPitch constrainPitch : bool) : Camera F :=
  let xoffset := dmul xoffset (to_double (mouseSensitivity c)) in
  let yoffset := dmul yoffset (to_double (mouseSensitivity c)) in
  let c := set_yaw c (to_float (dadd (to_double (yaw c)) xoffset)) in
  let c := set_pitch c (to_float (dadd (to_double (pitch c)) yoffset)) in
  let c :=
    if constrainPitch then
      let c := if fgtb (pitch c) (flit (89 # 1))
               then set_pitch c (flit (89 # 1)) else c in
      if fltb (pitch c) (flit (-89 # 1))
      then set_pitch c (flit (-89 # 1)) else c
    else c in
  updateCameraVectors c.

Definition processMouseScroll (c : Camera F) (yoffset : D)
    (constrainZoom : bool) : Camera F :=
  let c := set_zoom c (fsub (zoom c) (to_float yoffset)) in
  if negb constrainZoom then c
  else
    let c := if fltb (zoom c) (flit (1 # 1))
             then set_zoom c (flit (1 # 1)) else c in
    if fgtb (zoom c) (flit (45 # 1))
    then set_zoom c (flit (45 # 1)) else c.

(** *** main.cpp *)

(* The global camera, as its initialiser leaves it. *)
Definition camera : Camera F :=
  Camera_vectors (mk_vec3 (flit (0 # 1)) (flit (0 # 1)) (flit (3 # 1)))
                 (mk_vec3 (flit (0 # 1)) (flit (1 # 1)) (flit (0 # 1)))
                 DEFAULT_YAW DEFAULT_PITCH.

(* The lambda handed to glfwSetScrollCallback; main.cpp spells the method
   ProcessMouseScroll. *)
Definition scroll_callback (c : Camera F) (xoffset yoffset : D)
  : Camera F :=
  processMouseScroll c yoffset false.

End CameraOps.

(** ** IEEE 754 arithmetic *)

(** [float] as binary32 and [double] as binary64, on the executable
    specification of the Standard Library.  The library has no cosine or
    sine: the two functions are parameters of the interpretation. *)
Module IEEE.

Definition prec32 : Z := 24.
Definition emax32 : Z := 128.
Definition prec64 : Z := 53.
Definition emax64 : Z := 1024.

Definition is_nan (a : spec_float) : bool :=
  match a with
  | S754_nan => true
  | _ => false
  end.

(* zeros and normal or subnormal numbers *)
Definition is_finite (a : spec_float) : bool :=
  match a with
  | S754_zero _ | S754_finite _ _ _ => true
  | _ => false
  end.

(* Conversion of a value to the format (prec, emax), rounding to nearest
   even. *)
Definition convert (prec emax : Z) (a : spec_float) : spec_float :=
  match a with
  | S754_finite s m e => binary_normalize prec emax (cond_Zopp s (Zpos m)) e s
  | _ => a
  end.

Definition of_Z (prec emax : Z) (n : Z) : spec_float :=
  binary_normalize prec emax n 0 false.

(* The literal n/d.  The quotient is rounded once, so the result is the
   nearest value of the format when n and d are values of the format, as
   they are for every literal of the camera. *)
Definition lit (prec emax : Z) (q : Q) : spec_float :=
  SFdiv prec emax (of_Z prec emax (Qnum q)) (of_Z prec emax (Zpos (Qden q))).

Definition lit32 : Q -> spec_float := lit prec32 emax32.
Definition lit64 : Q -> spec_float := lit prec64 emax64.

Definition ops (cos_d sin_d : spec_float -> spec_float)
  : FloatOps spec_float spec_float := {|
  flit := lit32;
  fadd := SFadd prec32 emax32;
  fsub := SFsub prec32 emax32;
  fmul := SFmul prec32 emax32;
  fltb := SFltb;
  dadd := SFadd prec64 emax64;
  dmul := SFmul prec64 emax64;
  to_double := convert prec64 emax64;
  to_float := convert prec32 emax32;
  dcos := cos_d;
  dsin := sin_d;
  finversesqrt := fun a =>
    SFdiv prec32 emax32 (lit32 (1 # 1)) (SFsqrt prec32 emax32 a);
  (* 0.01745329251994329576923690768489 as a float *)
  deg2rad := S754_finite false 9370165 (-29)
|}.

(* cos and sin of the C library where Annex F of the C standard fixes the
   result: cos(+-0) = 1, sin(+-0) = +-0, and an infinity or a NaN gives a
   NaN.  [rest] stands for the library on every other argument. *)
Definition libm_cos (rest : spec_float -> spec_float) (a : spec_float)
  : spec_float :=
  match a with
  | S754_zero _ => lit64 (1 # 1)
  | S754_infinity _ | S754_nan => S754_nan
  | S754_finite _ _ _ => rest a
  end.

Definition libm_sin (rest : spec_float -> spec_float) (a : spec_float)
  : spec_float :=
  match a with
  | S754_zero s => S754_zero s
  | S754_infinity _ | S754_nan => S754_nan
  | S754_finite _ _ _ => rest a
  end.

(* The vector whose components are NaN. *)
Definition nan3 : vec3 spec_float := mk_vec3 S754_nan S754_nan S754_nan.

(* [a] is a number between [lo] and [hi]. *)
Definition between (lo hi : Q) (a : spec_float) : bool :=
  SFleb (lit32 lo) a && SFleb a (lit32 hi).

End IEEE.

(** ** Exact arithmetic *)

Open Scope R_scope.

Definition Rltb (a b : R) : bool := if Rlt_dec a b then true else false.

(** Exact arithmetic: both [float] and [double] are read as real numbers,
    so there is no rounding, no overflow, no infinity and no NaN; the
    conversions between them are the identity, and glm's constant is
    pi / 180 itself.  A theorem over this interpretation says what the
    formulas of the code compute, not what a run on floats returns. *)
#[export] Instance R_FloatOps : FloatOps R R := {|
  flit := Q2R;
  fadd := Rplus;
  fsub := Rminus;
  fmul := Rmult;
  fltb := Rltb;
  dadd := Rplus;
  dmul := Rmult;
  to_double := fun a => a;
  to_float := fun a => a;
  dcos := cos;
  dsin := sin;
  finversesqrt := fun a => 1 / sqrt a;
  deg2rad := PI / 180
|}.

(** glm::length, in exact arithmetic. *)
Definition vlength (v : vec3 R) : R := sqrt (dot v v).

(** [a] is a multiple of [b]. *)
Definition parallel (a b : vec3 R) : Prop := exists k : R, a = scale b k.

(** The value [v] clamped into the interval from [lo] to [hi]. *)
Definition clamp (lo hi v : R) : R := Rmax lo (Rmin hi v).

(** The frame of a camera is orthonormal and derived from front and
    worldUp. *)
Record orthonormal_frame (c : Camera R) : Prop := mk_frame {
  front_unit : vlength (front c) = 1;
  right_unit : vlength (right c) = 1;
  up_unit : vlength (up c) = 1;
  front_right : dot (front c) (right c) = 0;
  front_up : dot (front c) (up c) = 0;
  right_up : dot (right c) (up c) = 0;
  right_def : right c = normalize (cross (front c) (worldUp c));
  up_def : up c = normalize (cross (right c) (front c))
}.

(** processMouseMovement(0, 0) with the default invertPitch and
    constrainPitch leaves yaw, pitch, front, right and up of the state. *)
Definition zero_movement_noop (c : Camera R) : Prop :=
  let c' := processMouseMovement c 0 0 true true in
  yaw c' = yaw c /\ pitch c' = pitch c /\
  front c' = front c /\ right c' = right c /\ up c' = up c.

(* Case analysis on the innermost comparison of the goal. *)
Ltac no_Rltb t :=
  lazymatch t with
  | context [Rltb _ _] => fail
  | _ => idtac
  end.

Ltac case_Rltb :=
  match goal with
  | |- context [Rltb ?a ?b] =>
      no_Rltb a; no_Rltb b;
      let E := fresh "E" in
      destruct (Rltb a b) eqn:E; unfold Rltb in E;
      destruct (Rlt_dec a b); try discriminate E; clear E; cbn
  end.

(** The calls that assign yaw or pitch: their results. *)
Inductive orientation_call : Camera R -> Prop :=
| oc_vectors (position worldUp : vec3 R) (yaw pitch : R) :
    orientation_call (Camera_vectors position worldUp yaw pitch)
| oc_scalars (posX posY posZ upX upY upZ yaw pitch : R) :
    orientation_call
      (Camera_scalars posX posY posZ upX upY upZ yaw pitch)
| oc_mouse (c : Camera R) (xoffset yoffset : R)
    (invertPitch constrainPitch : bool) :
    orientation_call
      (processMouseMovement c xoffset yoffset invertPitch constrainPitch).

(** ** Sequences of calls *)

Section Sequences.
Context {F D : Type} {ops : FloatOps F D}.

(* The states after each call of a sequence of processMouseMovement calls
   with constrainPitch = true; an element gives xoffset, yoffset and
   invertPitch. *)
Fixpoint mouse_states (c : Camera F) (calls : list (D * D * bool))
  : list (Camera F) :=
  match calls with
  | [] => []
  | (xoffset, yoffset, invertPitch) :: rest =>
      let c' := processMouseMovement c xoffset yoffset invertPitch true in
      c' :: mouse_states c' rest
  end.

(* The states after each call of a sequence of processMouseScroll calls
   with constrainZoom = true; an element gives yoffset. *)
Fixpoint scroll_states (c : Camera F) (calls : list D) : list (Camera F) :=
  match calls with
  | [] => []
  | yoffset :: rest =>
      let c' := processMouseScroll c yoffset true in
      c' :: scroll_states c' rest
  end.
End Sequences.

(** ** The application (main.cpp) *)

(** main.cpp spells the methods of the camera with a capital
    (ProcessKeyboard, ProcessMouseMovement, ProcessMouseScroll); they are read
    as the methods of camera.cpp.

    The arithmetic of main.cpp that the camera does not use: literals of
    type [double] and the subtraction of two [double]s. *)
Class DoubleOps (D : Type) : Type := {
  dlit : Q -> D;
  dsub : D -> D -> D
}.

#[export] Instance R_DoubleOps : DoubleOps R := {|
  dlit := Q2R;
  dsub := Rminus
|}.

Definition IEEE_DoubleOps : DoubleOps spec_float := {|
  dlit := IEEE.lit64;
  dsub := SFsub IEEE.prec64 IEEE.emax64
|}.

(** The keys processInput polls. *)
Inductive Key : Type :=
  GLFW_KEY_ESCAPE | GLFW_KEY_W | GLFW_KEY_S | GLFW_KEY_A | GLFW_KEY_D.

(** The state main.cpp keeps between calls: its globals, the two statics of
    mouse_callback and the close flag of the window. *)
Record Globals (F D : Type) : Type := mk_Globals {
  cam : Camera F;
  deltaTime : F;
  lastFrame : F;
  firstMouse : bool;
  lastX : D;
  lastY : D;
  windowShouldClose : bool
}.

(** What glfwPollEvents delivers: a cursor position, a scroll, or a request
    to close the window, for which GLFW sets the close flag. *)
Inductive Event (D : Type) : Type :=
| CursorPos (xpos ypos : D)
| Scroll (xoffset yoffset : D)
| WindowClose.

Arguments WindowClose {D}.

(** What one iteration of the render loop reads from GLFW: the key states,
    the clock, and the events polled at its end. *)
Record FrameInput (D : Type) : Type := mk_FrameInput {
  glfwGetKey : Key -> bool;
  glfwGetTime : D;
  glfwPollEvents : list (Event D)
}.

Section Main.
Context {F D : Type} {ops : FloatOps F D} {dops : DoubleOps D}.

Definition set_movementSpeed (c : Camera F) (a : F) : Camera F :=
  mk_Camera (position c) (front c) (up c) (right c) (worldUp c) (yaw c)
            (pitch c) a (mouseSensitivity c) (zoom c).
Definition set_mouseSensitivity (c : Camera F) (a : F) : Camera F :=
  mk_Camera (position c) (front c) (up c) (right c) (worldUp c) (yaw c)
            (pitch c) (movementSpeed c) a (zoom c).

Definition set_cam (g : Globals F D) (c : Camera F) : Globals F D :=
  mk_Globals c (deltaTime g) (lastFrame g) (firstMouse g) (lastX g) (lastY g)
             (windowShouldClose g).

(* The globals when the render loop starts: the initialisers, WIDTH / 2 and
   HEIGHT / 2 = 300 for the statics, and the two camera settings of main. *)
Definition main_init : Globals F D :=
  let c := set_mouseSensitivity camera (flit (2 # 10)) in
  let c := set_movementSpeed c (flit (2 # 1)) in
  mk_Globals c (flit (0 # 1)) (flit (0 # 1)) true
             (dlit (300 # 1)) (dlit (300 # 1)) false.

(* processInput; [pressed k] is glfwGetKey(window, k) == GLFW_PRESS. *)
Definition processInput (g : Globals F D) (pressed : Key -> bool)
  : Globals F D :=
  let g := if pressed GLFW_KEY_ESCAPE
           then mk_Globals (cam g) (deltaTime g) (lastFrame g) (firstMouse g)
                           (lastX g) (lastY g) true
           else g in
  let g := if pressed GLFW_KEY_W
           then set_cam g (processKeyboard (cam g) FORWARD (deltaTime g))
           else g in
  let g := if pressed GLFW_KEY_S
           then set_cam g (processKeyboard (cam g) BACKWARD (deltaTime g))
           else g in
  let g := if pressed GLFW_KEY_A
           then set_cam g (processKeyboard (cam g) LEFT (deltaTime g))
           else g in
  if pressed GLFW_KEY_D
  then set_cam g (processKeyboard (cam g) RIGHT (deltaTime g))
  else g.

(* mouse_callback; it passes invertPitch = true and leaves constrainPitch to
   its default, true. *)
Definition mouse_callback (g : Globals F D) (xpos ypos : D) : Globals F D :=
  let g := if firstMouse g
           then mk_Globals (cam g) (deltaTime g) (lastFrame g) false
                           xpos ypos (windowShouldClose g)
           else g in
  let xoffset := dsub xpos (lastX g) in
  let yoffset := dsub (lastY g) ypos in
  let g := mk_Globals (cam g) (deltaTime g) (lastFrame g) (firstMouse g)
                      xpos ypos (windowShouldClose g) in
  set_cam g (processMouseMovement (cam g) xoffset yoffset true true).

Definition dispatch (g : Globals F D) (e : Event D) : Globals F D :=
  match e with
  | CursorPos xpos ypos => mouse_callback g xpos ypos
  | Scroll xoffset yoffset =>
      set_cam g (scroll_callback (cam g) xoffset yoffset)
  | WindowClose =>
      mk_Globals (cam g) (deltaTime g) (lastFrame g) (firstMouse g)
                 (lastX g) (lastY g) true
  end.

(* The body of the render loop, as far as it writes the globals:
   processInput, the frame time, and the callbacks of glfwPollEvents. *)
Definition loop_body (g : Globals F D) (i : FrameInput D) : Globals F D :=
  let g := processInput g (glfwGetKey i) in
  let currentFrame := to_float (glfwGetTime i) in
  let g := mk_Globals (cam g) (fsub currentFrame (lastFrame g)) currentFrame
                      (firstMouse g) (lastX g) (lastY g)
                      (windowShouldClose g) in
  fold_left dispatch (glfwPollEvents i) g.

(* while (!glfwWindowShouldClose(window)), over the inputs of the
   iterations that follow. *)
Fixpoint main_loop (g : Globals F D) (frames : list (FrameInput D))
  : Globals F D :=
  match frames with
  | [] => g
  | i :: rest =>
      if windowShouldClose g then g else main_loop (loop_body g i) rest
  end.

End Main.

(** What the application keeps of its camera: the settings of main, a pitch
    within the constraint, and a frame that is the one derived from yaw,
    pitch and worldUp = (0, 1, 0). *)
Record app_invariant (g : Globals R R) : Prop := mk_app_invariant {
  inv_worldUp : worldUp (cam g) = mk_vec3 0 1 0;
  inv_sensitivity : mouseSensitivity (cam g) = 0.2;
  inv_speed : movementSpeed (cam g) = 2;
  inv_pitch : -89 <= pitch (cam g) <= 89;
  inv_frame : updateCameraVectors (cam g) = cam g
}.

(** The cursor column the next offset is measured from. *)
Definition cursor_origin (g : Globals R R) (positions : list (R * R)) : R :=
  if firstMouse g then
    match positions with
    | [] => lastX g
    | (xpos, _) :: _ => xpos
    end
  else lastX g.

(** The sum of the y-offsets of the scroll events. *)
Fixpoint scroll_total (events : list (Event R)) : R :=
  match events with
  | [] => 0
  | Scroll _ yoffset :: rest => yoffset + scroll_total rest
  | _ :: rest => scroll_total rest
  end.

(** 1 for a pressed key, 0 otherwise. *)
Definition key_weight (pressed : Key -> bool) (k : Key) : R :=
  if pressed k then 1 else 0.

(** * Properties for every arithmetic *)

Section Generic.
Context {F D : Type} {ops : FloatOps F D}.

Lemma updateCameraVectors_yaw (c : Camera F) :
  yaw (updateCameraVectors c) = yaw c.
Proof. reflexivity. Qed.

Lemma updateCameraVectors_pitch (c : Camera F) :
  pitch (updateCameraVectors c) = pitch c.
Proof. reflexivity. Qed.

(* updateCameraVectors reads yaw, pitch and worldUp only. *)
Lemma updateCameraVectors_reads (c : Camera F) :
  updateCameraVectors c =
  let f := normalize (new_front (yaw c) (pitch c)) in
  let r := normalize (cross f (worldUp c)) in
  mk_Camera (position c) f (normalize (cross r f)) r (worldUp c) (yaw c)
            (pitch c) (movementSpeed c) (mouseSensitivity c) (zoom c).
Proof. reflexivity. Qed.

Lemma updateCameraVectors_idem (c : Camera F) :
  updateCameraVectors (updateCameraVectors c) = updateCameraVectors c.
Proof. reflexivity. Qed.


(** C4.  processKeyboard moves position by v = movementSpeed * deltaTime:
    FORWARD adds front * v, BACKWARD subtracts front * v, LEFT subtracts
    right * v, RIGHT adds right * v. *)
Theorem processKeyboard_position (c : Camera F) (deltaTime : F) :
  let v := fmul (movementSpeed c) deltaTime in
  position (processKeyboard c FORWARD deltaTime)
    = add (position c) (scale (front c) v) /\
  position (processKeyboard c BACKWARD deltaTime)
    = sub (position c) (scale (front c) v) /\
  position (processKeyboard c LEFT deltaTime)
    = sub (position c) (scale (right c) v) /\
  position (processKeyboard c RIGHT deltaTime)
    = add (position c) (scale (right c) v).
Proof. repeat split. Qed.

(** C9.  processKeyboard changes position only: yaw, pitch, front, right,
    up, worldUp, movementSpeed, mouseSensitivity and zoom are those of the
    state before the call. *)
Theorem processKeyboard_frame (c : Camera F) (direction : Camera_Movement)
    (deltaTime : F) :
  let c' := processKeyboard c direction deltaTime in
  yaw c' = yaw c /\ pitch c' = pitch c /\
  front c' = front c /\ right c' = right c /\ up c' = up c /\
  worldUp c' = worldUp c /\
  movementSpeed c' = movementSpeed c /\
  mouseSensitivity c' = mouseSensitivity c /\
  zoom c' = zoom c.
Proof. destruct direction; repeat split. Qed.

End Generic.

(** * Properties in exact arithmetic *)

Lemma Q2R_int (n : Z) : Q2R (n # 1) = IZR n.
Proof. unfold Q2R; cbn [Qnum Qden]. lra. Qed.

Lemma processMouseMovement_pitch (c : Camera R) (xoffset yoffset : R)
    (invertPitch : bool) :
  pitch (processMouseMovement c xoffset yoffset invertPitch true)
  = clamp (-89) 89 (pitch c + yoffset * mouseSensitivity c).
Proof.
  unfold processMouseMovement. rewrite updateCameraVectors_pitch.
  unfold fgtb, clamp, Rmax, Rmin. cbn. rewrite !Q2R_int.
  repeat case_Rltb; repeat destruct Rle_dec; lra.
Qed.

Lemma clamp_bounds (lo hi v : R) : lo <= hi -> lo <= clamp lo hi v <= hi.
Proof.
  intros Hle. unfold clamp, Rmax, Rmin.
  repeat destruct Rle_dec; lra.
Qed.

(** C2.  Over a sequence of processMouseMovement calls with
    constrainPitch = true, from any state, pitch is between -89 and 89 in the
    state after each call. *)
Theorem pitch_constrained (c : Camera R) (calls : list (R * R * bool)) :
  Forall (fun c' => -89 <= pitch c' <= 89) (mouse_states c calls).
Proof.
  revert c. induction calls as [| [[xoffset yoffset] invertPitch] rest IH];
    intros c; cbn [mouse_states].
  - constructor.
  - constructor.
    + rewrite processMouseMovement_pitch. apply clamp_bounds. lra.
    + apply IH.
Qed.

Lemma processMouseScroll_zoom (c : Camera R) (yoffset : R) :
  zoom (processMouseScroll c yoffset true) = clamp 1 45 (zoom c - yoffset).
Proof.
  unfold processMouseScroll, fgtb, clamp, Rmax, Rmin. cbn. rewrite !Q2R_int.
  repeat case_Rltb; repeat destruct Rle_dec; lra.
Qed.

(** C5.  processMouseScroll with constrainZoom = true sets zoom to
    zoom - yoffset clamped into the interval from 1 to 45; from zoom = 45 the
    offset 50 gives zoom = 1; over a sequence of such calls zoom is between 1
    and 45 after each call. *)
Theorem zoom_constrained :
  (forall (c : Camera R) (yoffset : R),
     zoom (processMouseScroll c yoffset true)
     = clamp 1 45 (zoom c - yoffset)) /\
  (forall c : Camera R,
     zoom (processMouseScroll (set_zoom c 45) 50 true) = 1) /\
  (forall (c : Camera R) (calls : list R),
     Forall (fun c' => 1 <= zoom c' <= 45) (scroll_states c calls)).
Proof.
  split; [exact processMouseScroll_zoom | split].
  - intros c. rewrite processMouseScroll_zoom. cbn.
    unfold clamp, Rmax, Rmin. repeat destruct Rle_dec; lra.
  - intros c calls. revert c.
    induction calls as [| yoffset rest IH]; intros c; cbn [scroll_states].
    + constructor.
    + constructor; [| apply IH].
      rewrite processMouseScroll_zoom. apply clamp_bounds. lra.
Qed.

Lemma vec3_eq (a b : vec3 R) :
  x a = x b -> y a = y b -> z a = z b -> a = b.
Proof. destruct a, b; cbn; intros; subst; reflexivity. Qed.


(** ** Vector algebra *)

Lemma dot_nonneg (v : vec3 R) : 0 <= dot v v.
Proof. destruct v as [a b c]; cbn. nra. Qed.

Lemma dot_comm (a b : vec3 R) : dot a b = dot b a.
Proof. cbn. ring. Qed.

Lemma dot_scale_l (a b : vec3 R) (k : R) : dot (scale a k) b = k * dot a b.
Proof. cbn. ring. Qed.

Lemma dot_scale_r (a b : vec3 R) (k : R) : dot a (scale b k) = k * dot a b.
Proof. cbn. ring. Qed.

Lemma dot_cross_l (a b : vec3 R) : dot (cross a b) a = 0.
Proof. cbn. ring. Qed.

Lemma dot_cross_r (a b : vec3 R) : dot (cross a b) b = 0.
Proof. cbn. ring. Qed.

(* Lagrange's identity. *)
Lemma dot_cross_cross (a b : vec3 R) :
  dot (cross a b) (cross a b) = dot a a * dot b b - dot a b * dot a b.
Proof. cbn. ring. Qed.

Lemma vlength_1 (v : vec3 R) : vlength v = 1 <-> dot v v = 1.
Proof.
  unfold vlength. split; intros Hv.
  - pose proof (sqrt_sqrt (dot v v) (dot_nonneg v)) as E.
    rewrite Hv in E. lra.
  - rewrite Hv. apply sqrt_1.
Qed.

Lemma normalize_unit (v : vec3 R) : dot v v = 1 -> normalize v = v.
Proof.
  intros Hv. unfold normalize. rewrite Hv. cbn. rewrite sqrt_1.
  apply vec3_eq; cbn; field.
Qed.

Lemma normalize_dot (v : vec3 R) :
  dot v v <> 0 -> dot (normalize v) (normalize v) = 1.
Proof.
  intros Hv. pose proof (dot_nonneg v) as Hge.
  assert (Hs : 0 < sqrt (dot v v)) by (apply sqrt_lt_R0; lra).
  unfold normalize. rewrite dot_scale_l, dot_scale_r.
  cbn [finversesqrt R_FloatOps].
  pose proof (sqrt_sqrt (dot v v) Hge) as E.
  set (s := sqrt (dot v v)) in *.
  transitivity (s * s * (/ s * / s)); [rewrite E; field; lra | field; lra].
Qed.

Lemma new_front_dot (yaw pitch : R) :
  dot (new_front yaw pitch) (new_front yaw pitch) = 1.
Proof.
  cbn. set (a := yaw * (PI / 180)). set (b := pitch * (PI / 180)).
  pose proof (sin2_cos2 a) as Ha. pose proof (sin2_cos2 b) as Hb.
  unfold Rsqr in *. nra.
Qed.

Lemma sum_squares_0 (u v w : R) :
  u * u + v * v + w * w = 0 -> u = 0 /\ v = 0 /\ w = 0.
Proof. intros Hs. repeat split; nra. Qed.

(* A vector that is no multiple of the unit vector b has a non-zero cross
   product with it. *)
Lemma cross_not_parallel (a b : vec3 R) :
  dot b b = 1 -> ~ parallel a b -> dot (cross a b) (cross a b) <> 0.
Proof.
  intros Hb Hnp Hz. apply Hnp. exists (dot a b).
  apply sum_squares_0 in Hz. destruct Hz as (H1 & H2 & H3).
  destruct a as [a1 a2 a3], b as [b1 b2 b3]; cbn in *.
  assert (E1 : a2 * b3 = b2 * a3) by lra.
  assert (E2 : a3 * b1 = b3 * a1) by lra.
  assert (E3 : a1 * b2 = b1 * a2) by lra.
  clear H1 H2 H3 Hnp.
  apply vec3_eq; cbn.
  - transitivity (a1 * (b1 * b1 + b2 * b2 + b3 * b3)); [rewrite Hb; ring |].
    transitivity (a1 * b1 * b1 + (a1 * b2) * b2 + (b3 * a1) * b3); [ring |].
    rewrite E3, <- E2. ring.
  - transitivity (a2 * (b1 * b1 + b2 * b2 + b3 * b3)); [rewrite Hb; ring |].
    transitivity ((b1 * a2) * b1 + a2 * b2 * b2 + (a2 * b3) * b3); [ring |].
    rewrite <- E3, E1. ring.
  - transitivity (a3 * (b1 * b1 + b2 * b2 + b3 * b3)); [rewrite Hb; ring |].
    transitivity ((a3 * b1) * b1 + (b2 * a3) * b2 + a3 * b3 * b3); [ring |].
    rewrite E2, <- E1. ring.
Qed.

(** ** The frame updateCameraVectors derives *)

Lemma updateCameraVectors_front (c : Camera R) :
  front (updateCameraVectors c) = new_front (yaw c) (pitch c).
Proof.
  rewrite updateCameraVectors_reads. cbn [front].
  apply normalize_unit, new_front_dot.
Qed.

Lemma updateCameraVectors_frame (c : Camera R) :
  vlength (worldUp c) = 1 ->
  ~ parallel (front (updateCameraVectors c)) (worldUp c) ->
  orthonormal_frame (updateCameraVectors c).
Proof.
  intros Hw Hnp. apply vlength_1 in Hw.
  pose proof (cross_not_parallel Hw Hnp) as Hc.
  rewrite updateCameraVectors_front in Hnp, Hc.
  rewrite updateCameraVectors_reads.
  rewrite (normalize_unit (new_front_dot (yaw c) (pitch c))).
  cbv zeta.
  set (f := new_front (yaw c) (pitch c)) in *.
  set (r := normalize (cross f (worldUp c))).
  assert (Hf : dot f f = 1) by apply new_front_dot.
  assert (Hr : dot r r = 1) by (apply normalize_dot; exact Hc).
  assert (Hfr : dot f r = 0).
  { unfold r, normalize. rewrite dot_scale_r, (dot_comm f), dot_cross_l. ring. }
  assert (Hu : dot (cross r f) (cross r f) = 1).
  { rewrite dot_cross_cross, Hr, Hf, (dot_comm r f), Hfr. ring. }
  rewrite (normalize_unit Hu).
  constructor; cbn [front right up worldUp].
  - apply vlength_1, Hf.
  - apply vlength_1, Hr.
  - apply vlength_1, Hu.
  - exact Hfr.
  - rewrite dot_comm. apply dot_cross_r.
  - rewrite dot_comm. apply dot_cross_l.
  - reflexivity.
  - symmetry. apply normalize_unit, Hu.
Qed.

Lemma orientation_call_inv (c : Camera R) :
  orientation_call c ->
  exists c0, c = updateCameraVectors c0 /\ worldUp c0 = worldUp c.
Proof.
  intros [p w ya pt | px py pz ux uy uz ya pt | c0 xo yo ip cp];
    eexists; split; reflexivity.
Qed.


Lemma radians_m90 : radians (Q2R (-90 # 1)) = - (PI / 2).
Proof. unfold radians. cbn. rewrite Q2R_int. lra. Qed.

Lemma radians_0 : radians (Q2R (0 # 1)) = 0.
Proof. unfold radians. cbn. rewrite Q2R_int. lra. Qed.

Lemma new_front_default :
  new_front DEFAULT_YAW DEFAULT_PITCH = mk_vec3 0 0 (-1).
Proof.
  unfold new_front, DEFAULT_YAW, DEFAULT_PITCH.
  cbn [flit dcos dsin dmul to_float to_double R_FloatOps].
  rewrite radians_m90, radians_0.
  rewrite cos_neg, sin_neg, cos_PI2, sin_PI2, cos_0, sin_0.
  apply vec3_eq; cbn; ring.
Qed.

Lemma camera_eq :
  camera =
  mk_Camera (mk_vec3 0 0 3) (mk_vec3 0 0 (-1)) (mk_vec3 0 1 0) (mk_vec3 1 0 0)
            (mk_vec3 0 1 0) (-90) 0 2.5 0.1 45.
Proof.
  unfold camera, Camera_vectors. rewrite updateCameraVectors_reads.
  cbn [position front up right worldUp yaw pitch movementSpeed
       mouseSensitivity zoom].
  rewrite (normalize_unit (new_front_dot _ _)), new_front_default.
  cbv zeta.
  assert (Hr : normalize (cross (mk_vec3 0 0 (-1))
                 (mk_vec3 (flit (0 # 1)) (flit (1 # 1)) (flit (0 # 1))))
               = mk_vec3 1 0 0).
  { cbn [flit R_FloatOps]. rewrite !Q2R_int.
    rewrite normalize_unit; [apply vec3_eq; cbn; ring | cbn; ring]. }
  rewrite Hr.
  assert (Hu : normalize (cross (mk_vec3 1 0 0) (mk_vec3 0 0 (-1)))
               = mk_vec3 0 1 0).
  { rewrite normalize_unit; [apply vec3_eq; cbn; ring | cbn; ring]. }
  rewrite Hu.
  unfold DEFAULT_YAW, DEFAULT_PITCH, DEFAULT_SPEED, DEFAULT_SENSITIVITY,
    DEFAULT_ZOOM.
  cbn [flit R_FloatOps]. rewrite !Q2R_int.
  f_equal; unfold Q2R; cbn [Qnum Qden]; lra.
Qed.

(* With worldUp = (0, 1, 0) and pitch between -89 and 89 degrees, front is
   no multiple of worldUp. *)
Lemma worldUp_y_not_parallel (c : Camera R) :
  worldUp c = mk_vec3 0 1 0 ->
  -89 <= pitch c <= 89 ->
  ~ parallel (front (updateCameraVectors c)) (worldUp c).
Proof.
  intros Hw Hp [k Hk]. rewrite updateCameraVectors_front, Hw in Hk.
  assert (Hcos : 0 < cos (radians (pitch c))).
  { pose proof PI_RGT_0 as Hpi. unfold radians. cbn.
    apply cos_gt_0; nra. }
  pose proof (sin2_cos2 (radians (yaw c))) as Hy. unfold Rsqr in Hy.
  apply (f_equal (@x R)) in Hk as Hx. apply (f_equal (@z R)) in Hk as Hz.
  cbn in Hx, Hz. unfold radians in *. cbn in *.
  set (a := cos (yaw c * (PI / 180))) in *.
  set (b := sin (yaw c * (PI / 180))) in *.
  set (d := cos (pitch c * (PI / 180))) in *.
  assert (Ha : a * d = 0) by lra. assert (Hb : b * d = 0) by lra.
  assert (Ha0 : a = 0) by nra. assert (Hb0 : b = 0) by nra.
  rewrite Ha0, Hb0 in Hy. lra.
Qed.

(** After a constructor or processMouseMovement, with worldUp = (0, 1, 0)
    and pitch between -89 and 89, the frame is orthonormal. *)
Lemma frame_for_worldUp_y (c : Camera R) :
  orientation_call c ->
  worldUp c = mk_vec3 0 1 0 ->
  -89 <= pitch c <= 89 ->
  orthonormal_frame c.
Proof.
  intros Hc Hw Hp. apply orientation_call_inv in Hc.
  destruct Hc as (c0 & -> & Hw0). rewrite <- Hw0 in Hw.
  rewrite updateCameraVectors_pitch in Hp.
  apply updateCameraVectors_frame.
  - rewrite Hw. apply vlength_1. cbn. ring.
  - apply worldUp_y_not_parallel; assumption.
Qed.


(** C6.  The camera of main.cpp, built at (0, 0, 3) with worldUp (0, 1, 0)
    and the default yaw and pitch, has front (0, 0, -1), and its view matrix
    is the look-at transform from (0, 0, 3) toward (0, 0, 2) with up
    (0, 1, 0).  For every camera GetViewMatrix returns
    lookAt(position, position + front, up) and leaves the state as it is. *)
Theorem default_view_matrix (mat4 : Type)
    (lookAt : vec3 R -> vec3 R -> vec3 R -> mat4) :
  front (@camera R R _) = mk_vec3 0 0 (-1) /\
  GetViewMatrix lookAt camera
  = (lookAt (mk_vec3 0 0 3) (mk_vec3 0 0 2) (mk_vec3 0 1 0), camera) /\
  (forall c : Camera R,
     GetViewMatrix lookAt c
     = (lookAt (position c) (add (position c) (front c)) (up c), c)).
Proof.
  split; [| split].
  - rewrite camera_eq. reflexivity.
  - unfold GetViewMatrix. rewrite camera_eq at 1 2 3 4.
    cbn [position front up]. f_equal. f_equal.
    apply vec3_eq; cbn; ring.
  - reflexivity.
Qed.

(** C8, as stated, fails: a camera constructed with pitch = 100 has its
    pitch set to 89 by processMouseMovement(0, 0); and a camera whose yaw was
    assigned after its frame was derived has its front recomputed. *)
Lemma zero_mouse_movement_changes :
  ~ zero_movement_noop
      (Camera_vectors (mk_vec3 0 0 0) (mk_vec3 0 1 0) (-90) 100) /\
  ~ zero_movement_noop (set_yaw camera 0).
Proof.
  split; unfold zero_movement_noop; intros (_ & Hp & Hf & _).
  - rewrite processMouseMovement_pitch in Hp.
    unfold Camera_vectors in Hp. rewrite updateCameraVectors_pitch in Hp.
    cbn in Hp. unfold clamp, Rmax, Rmin in Hp.
    repeat destruct Rle_dec; lra.
  - unfold processMouseMovement in Hf.
    rewrite updateCameraVectors_front, camera_eq in Hf.
    apply (f_equal (@x R)) in Hf. revert Hf.
    unfold fgtb. cbn. rewrite !Q2R_int.
    repeat case_Rltb; try lra.
    unfold radians. cbn.
    replace ((0 + 0 * 0.1) * (PI / 180)) with 0 by lra.
    rewrite cos_0. lra.
Qed.

(** C8, amended.  When pitch is between -89 and 89 and front, right and up
    are the vectors updateCameraVectors derives from the state, as they are
    after a constructor or processMouseMovement,
    processMouseMovement(0, 0, true, true) leaves the whole state, so yaw,
    pitch, front, right and up, as it is. *)
Theorem zero_mouse_movement_noop (c : Camera R) :
  -89 <= pitch c <= 89 ->
  updateCameraVectors c = c ->
  processMouseMovement c 0 0 true true = c /\ zero_movement_noop c.
Proof.
  intros Hp Hc.
  assert (Heq : processMouseMovement c 0 0 true true = c).
  { rewrite <- Hc at 2. unfold processMouseMovement, fgtb.
    destruct c as [p f u r w ya pt ms se zo]. cbn in *. rewrite !Q2R_int.
    replace (ya + 0 * se) with ya by ring.
    replace (pt + 0 * se) with pt by ring.
    repeat case_Rltb; try lra. reflexivity. }
  split; [exact Heq |]. unfold zero_movement_noop. rewrite Heq.
  repeat split.
Qed.

Lemma zero_mouse_movement_noop_witness :
  -89 <= pitch (@camera R R _) <= 89 /\
  updateCameraVectors (@camera R R _) = camera /\
  processMouseMovement (@camera R R _) 0 0 true true = camera.
Proof.
  assert (H1 : -89 <= pitch (@camera R R _) <= 89).
  { rewrite camera_eq. cbn. lra. }
  assert (H2 : updateCameraVectors (@camera R R _) = camera).
  { unfold camera, Camera_vectors. apply updateCameraVectors_idem. }
  exact (conj H1 (conj H2 (proj1 (zero_mouse_movement_noop H1 H2)))).
Defined.

(** C10.  processMouseScroll with constrainZoom = false sets zoom to
    zoom - yoffset and leaves every other field; it is the call the scroll
    callback of main.cpp makes; zoom then leaves the interval from 1 to 45:
    the callback with the offset 50 takes the initial zoom 45 to -5. *)
Theorem scroll_unconstrained :
  (forall (F D : Type) (ops : FloatOps F D) (c : Camera F) (yoffset : D),
     let c' := processMouseScroll c yoffset false in
     zoom c' = fsub (zoom c) (to_float yoffset) /\
     position c' = position c /\ front c' = front c /\ up c' = up c /\
     right c' = right c /\ worldUp c' = worldUp c /\
     yaw c' = yaw c /\ pitch c' = pitch c /\
     movementSpeed c' = movementSpeed c /\
     mouseSensitivity c' = mouseSensitivity c) /\
  (forall (F D : Type) (ops : FloatOps F D) (c : Camera F)
          (xoffset yoffset : D),
     scroll_callback c xoffset yoffset
     = processMouseScroll c yoffset false) /\
  (forall (c : Camera R) (yoffset : R),
     zoom (processMouseScroll c yoffset false) = zoom c - yoffset) /\
  zoom (scroll_callback (@camera R R _) 0 50) = -5 /\
  ~ (1 <= zoom (scroll_callback (@camera R R _) 0 50) <= 45).
Proof.
  assert (Hz : zoom (scroll_callback (@camera R R _) 0 50) = -5).
  { unfold scroll_callback, processMouseScroll. cbn [negb].
    rewrite camera_eq. cbn. lra. }
  repeat split; try exact Hz; rewrite Hz; lra.
Qed.

(** C3.  The code at the claim's input: processMouseMovement gives the same
    state for invertPitch = true and invertPitch = false, whatever the
    arithmetic, the state, the offsets and constrainPitch are.  From the
    initial camera the y-offset 10 gives pitch 0 + 10 * 0.1 = 1 for both
    values of invertPitch: the scaled offset is added, never subtracted. *)
Theorem processMouseMovement_ignores_invertPitch :
  (forall (F D : Type) (ops : FloatOps F D) (c : Camera F)
          (xoffset yoffset : D) (constrainPitch : bool),
     processMouseMovement c xoffset yoffset true constrainPitch
     = processMouseMovement c xoffset yoffset false constrainPitch) /\
  pitch (processMouseMovement (@camera R R _) 0 10 true true) = 1 /\
  pitch (processMouseMovement (@camera R R _) 0 10 false true) = 1.
Proof.
  split; [reflexivity |].
  rewrite !processMouseMovement_pitch, camera_eq. cbn.
  unfold clamp, Rmax, Rmin. repeat destruct Rle_dec; lra.
Qed.

(** * Properties in IEEE 754 arithmetic *)

Module IEEE_Props.
Import IEEE.
#[local] Open Scope Z_scope.

Lemma SFcompare_antisym (a b : spec_float) :
  SFcompare b a = option_map CompOpp (SFcompare a b).
Proof.
  destruct a as [s1 | s1 | | s1 m1 e1], b as [s2 | s2 | | s2 m2 e2];
    try reflexivity;
    try (destruct s1; reflexivity);
    try (destruct s2; reflexivity);
    try (destruct s1, s2; reflexivity).
  pose proof (Pos.compare_cont_antisym m1 m2 Eq) as Hm. cbn in Hm.
  cbn. rewrite (Z.compare_antisym e1 e2), <- Hm.
  destruct s1, s2; cbn; try reflexivity;
    destruct (e1 ?= e2); cbn; try reflexivity;
    destruct (Pos.compare_cont Eq m1 m2); reflexivity.
Qed.

Lemma SFcompare_None (a b : spec_float) :
  SFcompare a b = None -> is_nan a = true \/ is_nan b = true.
Proof.
  destruct a as [s1 | s1 | | s1 m1 e1], b as [s2 | s2 | | s2 m2 e2];
    cbn; intros Hc; try discriminate Hc; auto.
Qed.

(* Between numbers, a < b fails only when b <= a. *)
Lemma SFltb_false (a b : spec_float) :
  SFltb a b = false -> is_nan a = false -> is_nan b = false ->
  SFleb b a = true.
Proof.
  unfold SFltb, SFleb. intros Hlt Ha Hb. rewrite (SFcompare_antisym a b).
  destruct (SFcompare a b) as [[ | | ] |] eqn:Hc; cbn; try reflexivity;
    try discriminate Hlt.
  apply SFcompare_None in Hc. destruct Hc; congruence.
Qed.

(** ** Operations on numbers give no NaN *)

Lemma iter_pos_invariant {A : Type} (f : A -> A) (P : A -> Prop) :
  (forall a, P a -> P (f a)) ->
  forall (n : positive) (a : A), P a -> P (iter_pos f n a).
Proof.
  intros Hf. induction n as [n IH | n IH |]; intros a Ha; cbn; auto.
Qed.

Lemma shr_1_nonneg (mrs : shr_record) :
  0 <= shr_m mrs -> 0 <= shr_m (shr_1 mrs).
Proof.
  destruct mrs as [m r s]. cbn. intros Hm.
  destruct m as [| [p | p |] | p]; cbn; lia.
Qed.

Lemma shr_nonneg (mrs : shr_record) (e n : Z) :
  0 <= shr_m mrs -> 0 <= shr_m (fst (shr mrs e n)).
Proof.
  intros Hm. destruct n as [| p | p]; cbn; try exact Hm.
  apply (iter_pos_invariant shr_1 (fun a => 0 <= shr_m a)); auto.
  apply shr_1_nonneg.
Qed.

Lemma shr_fexp_nonneg (prec emax m e : Z) (l : location) :
  0 <= m -> 0 <= shr_m (fst (shr_fexp prec emax m e l)).
Proof.
  intros Hm. unfold shr_fexp. apply shr_nonneg.
  destruct l as [| []]; exact Hm.
Qed.

Lemma round_nearest_even_nonneg (m : Z) (l : location) :
  0 <= m -> 0 <= round_nearest_even m l.
Proof.
  intros Hm. destruct l as [| []]; cbn; try lia.
  destruct (Z.even m); lia.
Qed.

Lemma binary_round_aux_not_nan (prec emax : Z) (sx : bool) (mx ex : Z)
    (lx : location) :
  0 <= mx -> is_nan (binary_round_aux prec emax sx mx ex lx) = false.
Proof.
  intros Hm. unfold binary_round_aux.
  pose proof (@shr_fexp_nonneg prec emax mx ex lx Hm) as H1.
  destruct (shr_fexp prec emax mx ex lx) as [mrs' e']. cbn [fst] in H1.
  pose proof (@shr_fexp_nonneg prec emax _ e' loc_Exact
                (@round_nearest_even_nonneg _ (loc_of_shr_record mrs') H1))
    as H2.
  destruct (shr_fexp prec emax _ e' loc_Exact) as [mrs'' e''].
  cbn [fst] in H2.
  destruct (shr_m mrs'') as [| p | p]; try reflexivity; [| lia].
  destruct (e'' <=? emax - prec); reflexivity.
Qed.

Lemma binary_round_not_nan (prec emax : Z) (sx : bool) (mx : positive)
    (ex : Z) :
  is_nan (binary_round prec emax sx mx ex) = false.
Proof.
  unfold binary_round. destruct (shl_align _ _ _) as [mz ez].
  apply binary_round_aux_not_nan. lia.
Qed.

Lemma binary_normalize_not_nan (prec emax m e : Z) (szero : bool) :
  is_nan (binary_normalize prec emax m e szero) = false.
Proof.
  destruct m; cbn; try reflexivity; apply binary_round_not_nan.
Qed.

Lemma convert_not_nan (prec emax : Z) (a : spec_float) :
  is_nan a = false -> is_nan (convert prec emax a) = false.
Proof.
  destruct a; cbn; try congruence. intros _. apply binary_normalize_not_nan.
Qed.

Lemma SFmul_not_nan (prec emax : Z) (a b : spec_float) :
  is_finite a = true -> is_finite b = true ->
  is_nan (SFmul prec emax a b) = false.
Proof.
  destruct a, b; cbn; try congruence. intros _ _.
  apply binary_round_aux_not_nan. lia.
Qed.

Lemma SFadd_not_nan (prec emax : Z) (a b : spec_float) :
  is_finite a = true -> is_nan b = false ->
  is_nan (SFadd prec emax a b) = false.
Proof.
  destruct a as [sa | sa | | sa ma ea], b as [sb | sb | | sb mb eb]; cbn;
    try congruence; intros _ _.
  - destruct sa, sb; reflexivity.
  - apply binary_normalize_not_nan.
Qed.

Lemma SFsub_not_nan (prec emax : Z) (a b : spec_float) :
  is_finite a = true -> is_nan b = false ->
  is_nan (SFsub prec emax a b) = false.
Proof.
  destruct a as [sa | sa | | sa ma ea], b as [sb | sb | | sb mb eb]; cbn;
    try congruence; intros _ _.
  - destruct sa, sb; reflexivity.
  - apply binary_normalize_not_nan.
Qed.

(** ** The clamps *)

(* The two tests of a clamp: a number that passes both lies between the
   bounds. *)
Lemma clamp_tests (lo hi : Q) (a : spec_float) :
  is_nan (lit32 lo) = false -> is_nan (lit32 hi) = false ->
  is_nan a = false ->
  SFltb (lit32 hi) a = false -> SFltb a (lit32 lo) = false ->
  between lo hi a = true.
Proof.
  intros Hlo Hhi Ha H1 H2. unfold between.
  rewrite (SFltb_false _ _ H1 Hhi Ha), (SFltb_false _ _ H2 Ha Hlo).
  reflexivity.
Qed.

Lemma SFltb_nan_l (a : spec_float) : SFltb S754_nan a = false.
Proof. reflexivity. Qed.

Lemma SFltb_nan_r (a : spec_float) : SFltb a S754_nan = false.
Proof. destruct a; reflexivity. Qed.

Lemma is_nan_true (a : spec_float) : is_nan a = true -> a = S754_nan.
Proof. destruct a; cbn; congruence. Qed.

(* A value between two numbers is a zero or a finite number. *)
Lemma between_finite (lo hi : Q) (a : spec_float) :
  is_finite (lit32 lo) = true -> is_finite (lit32 hi) = true ->
  between lo hi a = true -> is_finite a = true.
Proof.
  unfold between, SFleb. intros Hlo Hhi Hb.
  apply andb_prop in Hb. destruct Hb as [H1 H2].
  destruct a as [s | s | | s m e]; try reflexivity.
  - destruct (lit32 lo), (lit32 hi), s; cbn in *; congruence.
  - destruct (lit32 lo); cbn in H1; congruence.
Qed.

Section Interpretation.
Variables cos_d sin_d : spec_float -> spec_float.

#[local] Hint Extern 0 (FloatOps _ _) =>
  exact (ops cos_d sin_d) : typeclass_instances.

(* The pitch before the tests of processMouseMovement. *)
Lemma ieee_pitch_clamped (c : Camera spec_float)
    (xoffset yoffset : spec_float) (invertPitch : bool) :
  let p0 := to_float (dadd (to_double (pitch c))
                           (dmul yoffset (to_double (mouseSensitivity c)))) in
  let p := pitch (processMouseMovement c xoffset yoffset invertPitch true) in
  if is_nan p0 then p = S754_nan else between (-89 # 1) (89 # 1) p = true.
Proof.
  cbv zeta. unfold processMouseMovement.
  rewrite updateCameraVectors_pitch. unfold fgtb.
  cbn [pitch set_pitch set_yaw mouseSensitivity].
  set (p0 := to_float _).
  destruct (is_nan p0) eqn:Hn.
  - apply is_nan_true in Hn. rewrite Hn. reflexivity.
  - cbn [fltb flit ops].
    destruct (SFltb (lit32 (89 # 1)) p0) eqn:H1; cbn [pitch set_pitch].
    + vm_compute. reflexivity.
    + destruct (SFltb p0 (lit32 (-89 # 1))) eqn:H2; cbn [pitch set_pitch].
      * vm_compute. reflexivity.
      * apply clamp_tests; auto.
Qed.

(* The zoom before the tests of processMouseScroll. *)
Lemma ieee_zoom_clamped (c : Camera spec_float) (yoffset : spec_float) :
  let z0 := fsub (zoom c) (to_float yoffset) in
  let z := zoom (processMouseScroll c yoffset true) in
  if is_nan z0 then z = S754_nan else between (1 # 1) (45 # 1) z = true.
Proof.
  cbv zeta. unfold processMouseScroll, fgtb.
  cbn [negb zoom set_zoom].
  set (z0 := fsub _ _).
  destruct (is_nan z0) eqn:Hn.
  - apply is_nan_true in Hn. rewrite Hn. reflexivity.
  - cbn [fltb flit ops].
    destruct (SFltb z0 (lit32 (1 # 1))) eqn:H1; cbn [zoom set_zoom].
    + vm_compute. reflexivity.
    + destruct (SFltb (lit32 (45 # 1)) z0) eqn:H2; cbn [zoom set_zoom].
      * vm_compute. reflexivity.
      * apply clamp_tests; auto.
Qed.

(* After each call of a sequence of constrained processMouseMovement calls
   pitch is a NaN or lies between -89 and 89. *)
Lemma ieee_pitch_range (c : Camera spec_float)
    (calls : list (spec_float * spec_float * bool)) :
  Forall (fun c' => is_nan (pitch c') = true
                    \/ between (-89 # 1) (89 # 1) (pitch c') = true)
         (mouse_states c calls).
Proof.
  revert c. induction calls as [| [[xoffset yoffset] invertPitch] rest IH];
    intros c; cbn [mouse_states]; constructor; [| apply IH].
  pose proof (ieee_pitch_clamped c xoffset yoffset invertPitch) as Hp.
  cbv zeta in Hp. destruct (is_nan _) in Hp.
  - left. rewrite Hp. reflexivity.
  - right. exact Hp.
Qed.

(** X23.  On floats, with a pitch and a sensitivity that are finite as
    doubles and a finite y-offset, no NaN arises: pitch lies between -89.0f
    and 89.0f after a constrained processMouseMovement, also when the scaled
    offset overflows to an infinity. *)
Lemma ieee_pitch_finite (c : Camera spec_float)
    (xoffset yoffset : spec_float) (invertPitch : bool) :
  is_finite (to_double (pitch c)) = true ->
  is_finite (to_double (mouseSensitivity c)) = true ->
  is_finite yoffset = true ->
  between (-89 # 1) (89 # 1)
    (pitch (processMouseMovement c xoffset yoffset invertPitch true)) = true.
Proof.
  intros Hp Hs Hy.
  pose proof (ieee_pitch_clamped c xoffset yoffset invertPitch) as Hc.
  cbv zeta in Hc. cbn [to_float to_double dadd dmul ops] in Hc, Hp, Hs.
  rewrite convert_not_nan in Hc; [exact Hc |].
  apply SFadd_not_nan; [exact Hp |].
  apply SFmul_not_nan; assumption.
Qed.

(* After each call of a sequence of constrained processMouseScroll calls
   zoom is a NaN or lies between 1 and 45. *)
Lemma ieee_zoom_range (c : Camera spec_float) (calls : list spec_float) :
  Forall (fun c' => is_nan (zoom c') = true
                    \/ between (1 # 1) (45 # 1) (zoom c') = true)
         (scroll_states c calls).
Proof.
  revert c. induction calls as [| yoffset rest IH];
    intros c; cbn [scroll_states]; constructor; [| apply IH].
  pose proof (ieee_zoom_clamped c yoffset) as Hz.
  cbv zeta in Hz. destruct (is_nan _) in Hz.
  - left. rewrite Hz. reflexivity.
  - right. exact Hz.
Qed.

(** X24.  On floats, from a finite zoom and with offsets that are no NaN
    (infinite ones included), zoom lies between 1.0f and 45.0f after each
    call of a sequence of constrained processMouseScroll calls. *)
Lemma ieee_zoom_finite (c : Camera spec_float) (calls : list spec_float) :
  is_finite (zoom c) = true ->
  Forall (fun yoffset => is_nan yoffset = false) calls ->
  Forall (fun c' => between (1 # 1) (45 # 1) (zoom c') = true)
         (scroll_states c calls).
Proof.
  intros Hz Hcalls. revert c Hz.
  induction Hcalls as [| yoffset rest Hy _ IH]; intros c Hz;
    cbn [scroll_states]; constructor.
  - pose proof (ieee_zoom_clamped c yoffset) as Hc.
    cbv zeta in Hc. cbn [fsub to_float ops] in Hc.
    rewrite SFsub_not_nan in Hc; [exact Hc | exact Hz |].
    apply convert_not_nan, Hy.
  - apply IH. apply (between_finite (1 # 1) (45 # 1)); try reflexivity.
    pose proof (ieee_zoom_clamped c yoffset) as Hc.
    cbv zeta in Hc. cbn [fsub to_float ops] in Hc.
    rewrite SFsub_not_nan in Hc; [exact Hc | exact Hz |].
    apply convert_not_nan, Hy.
Qed.

(** X25.  On floats the clamps let a NaN through: every comparison with a
    NaN is false, so a NaN y-offset, or a NaN already in pitch, leaves pitch
    a NaN after a constrained processMouseMovement, and likewise zoom after a
    constrained processMouseScroll. *)
Theorem nan_passes_the_clamps (c : Camera spec_float)
    (xoffset yoffset : spec_float) (invertPitch : bool) :
  pitch (processMouseMovement c xoffset S754_nan invertPitch true)
  = S754_nan /\
  pitch (processMouseMovement (set_pitch c S754_nan) xoffset yoffset
           invertPitch true)
  = S754_nan /\
  zoom (processMouseScroll c S754_nan true) = S754_nan /\
  zoom (processMouseScroll (set_zoom c S754_nan) yoffset true) = S754_nan.
Proof.
  split; [| split; [| split]].
  - pose proof (ieee_pitch_clamped c xoffset S754_nan invertPitch) as H.
    cbv zeta in H. cbn [to_float to_double dadd dmul ops] in H.
    replace (SFmul prec64 emax64 S754_nan _) with S754_nan in H
      by reflexivity.
    replace (SFadd prec64 emax64 _ S754_nan) with S754_nan in H
      by (destruct (convert prec64 emax64 (pitch c)); reflexivity).
    exact H.
  - exact (ieee_pitch_clamped (set_pitch c S754_nan) xoffset yoffset
             invertPitch).
  - pose proof (ieee_zoom_clamped c S754_nan) as H.
    cbv zeta in H. cbn [to_float fsub ops convert] in H.
    replace (SFsub prec32 emax32 (zoom c) S754_nan) with S754_nan in H
      by (destruct (zoom c); reflexivity).
    exact H.
  - exact (ieee_zoom_clamped (set_zoom c S754_nan) yoffset).
Qed.

(** ** The scenarios, evaluated *)

(* From zoom = 45.0f the offset 50.0 gives zoom = 1.0f. *)
Example scroll_50_from_45 (c : Camera spec_float) :
  zoom (processMouseScroll (set_zoom c (lit32 (45 # 1))) (lit64 (50 # 1)) true)
  = lit32 (1 # 1).
Proof. vm_compute. reflexivity. Qed.

(* From the initial camera the y-offset 10.0 gives pitch = 1.0f for both
   values of invertPitch. *)
Example pitch_offset_10 (invertPitch : bool) :
  pitch (processMouseMovement camera (lit64 (0 # 1)) (lit64 (10 # 1))
           invertPitch true)
  = lit32 (1 # 1).
Proof. vm_compute. reflexivity. Qed.

(* A camera constructed with pitch 100.0f: processMouseMovement(0, 0) sets
   its pitch to 89.0f. *)
Example pitch_100_clamped (position worldUp : vec3 spec_float) :
  let c := Camera_vectors position worldUp DEFAULT_YAW (lit32 (100 # 1)) in
  pitch c = lit32 (100 # 1) /\
  pitch (processMouseMovement c (lit64 (0 # 1)) (lit64 (0 # 1)) true true)
  = lit32 (89 # 1).
Proof. split; vm_compute; reflexivity. Qed.

End Interpretation.

Lemma ieee_pitch_finite_witness :
  let cos_d := fun a : spec_float => a in
  let c := @camera _ _ (ops cos_d cos_d) in
  is_finite (convert prec64 emax64 (pitch c)) = true /\
  between (-89 # 1) (89 # 1)
    (pitch (processMouseMovement (ops := ops cos_d cos_d) c
              (lit64 (3 # 1)) (lit64 (2000 # 1)) true true)) = true.
Proof.
  cbv zeta.
  refine (conj _ (@ieee_pitch_finite (fun a => a) (fun a => a)
                    (@camera _ _ (ops (fun a => a) (fun a => a)))
                    (lit64 (3 # 1)) (lit64 (2000 # 1)) true _ _ _));
    vm_compute; reflexivity.
Defined.

Lemma ieee_zoom_finite_witness :
  let cos_d := fun a : spec_float => a in
  let c := @camera _ _ (ops cos_d cos_d) in
  Forall (fun c' => between (1 # 1) (45 # 1) (zoom c') = true)
    (scroll_states (ops := ops cos_d cos_d) c
       [lit64 (50 # 1); S754_infinity true; lit64 (-3 # 1)]).
Proof.
  cbv zeta.
  apply (@ieee_zoom_finite (fun a => a) (fun a => a)).
  - vm_compute. reflexivity.
  - repeat constructor.
Defined.

End IEEE_Props.

(** * More on the camera, for every arithmetic *)

Section GenericMore.
Context {F D : Type} {ops : FloatOps F D}.

(** X1.  processMouseMovement writes yaw, pitch, front, right and up only:
    position, worldUp, movementSpeed, mouseSensitivity and zoom are those of
    the state before the call. *)
Theorem processMouseMovement_frame (c : Camera F) (xoffset yoffset : D)
    (invertPitch constrainPitch : bool) :
  let c' := processMouseMovement c xoffset yoffset invertPitch
              constrainPitch in
  position c' = position c /\ worldUp c' = worldUp c /\
  movementSpeed c' = movementSpeed c /\
  mouseSensitivity c' = mouseSensitivity c /\ zoom c' = zoom c.
Proof.
  cbv zeta. unfold processMouseMovement.
  destruct constrainPitch; [| repeat split].
  destruct (fgtb _ _); destruct (fltb _ _); repeat split.
Qed.

(** X2.  processMouseScroll writes zoom only, with and without
    constrainZoom, whether a bound applies or not. *)
Theorem processMouseScroll_frame (c : Camera F) (yoffset : D)
    (constrainZoom : bool) :
  let c' := processMouseScroll c yoffset constrainZoom in
  position c' = position c /\ front c' = front c /\ up c' = up c /\
  right c' = right c /\ worldUp c' = worldUp c /\
  yaw c' = yaw c /\ pitch c' = pitch c /\
  movementSpeed c' = movementSpeed c /\
  mouseSensitivity c' = mouseSensitivity c.
Proof.
  cbv zeta. unfold processMouseScroll.
  destruct constrainZoom; cbn [negb]; [| repeat split].
  destruct (fltb _ _); destruct (fgtb _ _); repeat split.
Qed.

End GenericMore.

Section GenericMain.
Context {F D : Type} {ops : FloatOps F D} {dops : DoubleOps D}.

(** X3.  processInput writes the position of the camera and the close flag
    only; the flag is set when Escape is down and is never cleared. *)
Theorem processInput_frame (g : Globals F D) (pressed : Key -> bool) :
  let g' := processInput g pressed in
  cam g' = set_position (cam g) (position (cam g')) /\
  deltaTime g' = deltaTime g /\ lastFrame g' = lastFrame g /\
  firstMouse g' = firstMouse g /\ lastX g' = lastX g /\
  lastY g' = lastY g /\
  windowShouldClose g'
  = (pressed GLFW_KEY_ESCAPE || windowShouldClose g)%bool.
Proof.
  cbv zeta. unfold processInput.
  destruct (pressed GLFW_KEY_ESCAPE), (pressed GLFW_KEY_W),
    (pressed GLFW_KEY_S), (pressed GLFW_KEY_A), (pressed GLFW_KEY_D);
    cbn; repeat split; destruct g as [[] ? ? ? ? ? ?]; reflexivity.
Qed.

End GenericMain.

(** * More on the camera, in exact arithmetic *)

Lemma cross_cross (a b c : vec3 R) :
  cross a (cross b c) = sub (scale b (dot a c)) (scale c (dot a b)).
Proof. apply vec3_eq; cbn; ring. Qed.

Lemma cross_cross_l (a b c : vec3 R) :
  cross (cross a b) c = sub (scale b (dot a c)) (scale a (dot b c)).
Proof. apply vec3_eq; cbn; ring. Qed.

Lemma orthonormal_up (c : Camera R) :
  orthonormal_frame c -> up c = cross (right c) (front c).
Proof.
  intros Ho. rewrite (up_def Ho). apply normalize_unit.
  rewrite dot_cross_cross.
  rewrite (proj1 (vlength_1 _) (right_unit Ho)).
  rewrite (proj1 (vlength_1 _) (front_unit Ho)).
  rewrite (dot_comm (right c)), (front_right Ho). ring.
Qed.

(** X4.  The frame is right-handed: after a constructor or
    processMouseMovement, when worldUp has length 1 and front is no multiple
    of it, cross(front, up) = right and cross(up, right) = front, beside
    up = cross(right, front). *)
Theorem frame_right_handed (c : Camera R) :
  orientation_call c ->
  vlength (worldUp c) = 1 ->
  ~ parallel (front c) (worldUp c) ->
  up c = cross (right c) (front c) /\
  cross (front c) (up c) = right c /\
  cross (up c) (right c) = front c.
Proof.
  intros Hc Hw Hnp. apply orientation_call_inv in Hc.
  destruct Hc as (c0 & -> & Hw0). rewrite <- Hw0 in Hw, Hnp.
  pose proof (updateCameraVectors_frame Hw Hnp) as Ho.
  set (c := updateCameraVectors c0) in *.
  pose proof (orthonormal_up Ho) as Hu.
  pose proof (proj1 (vlength_1 _) (right_unit Ho)) as Hr.
  pose proof (proj1 (vlength_1 _) (front_unit Ho)) as Hf.
  pose proof (front_right Ho) as Hfr.
  split; [exact Hu |]. rewrite Hu. split.
  - rewrite cross_cross, Hf, Hfr. apply vec3_eq; cbn; ring.
  - rewrite cross_cross_l, Hr, Hfr. apply vec3_eq; cbn; ring.
Qed.

(* The right and up vectors of the front vector at the angles a and b, for
   worldUp = (0, 1, 0), by the sign s of cos b. *)
Lemma frame_of_angles (a b s : R) :
  s * s = 1 -> 0 < s * cos b ->
  let f := mk_vec3 (cos a * cos b) (sin b) (sin a * cos b) in
  let r := mk_vec3 (- s * sin a) 0 (s * cos a) in
  normalize (cross f (mk_vec3 0 1 0)) = r /\
  normalize (cross r f)
  = mk_vec3 (- s * cos a * sin b) (s * cos b) (- s * sin a * sin b).
Proof.
  intros Hs Hcos f r.
  pose proof (sin2_cos2 a) as Ha. pose proof (sin2_cos2 b) as Hb.
  unfold Rsqr in Ha, Hb.
  assert (Hne : cos b <> 0) by (intros E; rewrite E in Hcos; lra).
  assert (Hsq : sqrt (cos b * cos b) = s * cos b).
  { replace (cos b * cos b) with (Rsqr (s * cos b)).
    - apply sqrt_Rsqr. lra.
    - unfold Rsqr. transitivity (s * s * (cos b * cos b));
        [ring | rewrite Hs; ring]. }
  assert (Hcases : s = 1 \/ s = -1).
  { assert (Hz : (s - 1) * (s + 1) = 0) by lra.
    apply Rmult_integral in Hz. destruct Hz; [left | right]; lra. }
  split.
  - assert (Hd : dot (cross f (mk_vec3 0 1 0)) (cross f (mk_vec3 0 1 0))
                 = cos b * cos b).
    { cbn. transitivity (cos b * cos b * (sin a * sin a + cos a * cos a));
        [ring | rewrite Ha; ring]. }
    unfold normalize. rewrite Hd. subst f r. cbn. rewrite Hsq.
    destruct Hcases; subst s; apply vec3_eq; cbn; field; auto.
  - rewrite normalize_unit.
    + subst f r. apply vec3_eq; cbn.
      * ring.
      * transitivity (s * cos b * (sin a * sin a + cos a * cos a));
          [ring | rewrite Ha; ring].
      * ring.
    + subst f r. cbn.
      transitivity
        (s * s * (sin b * sin b * (sin a * sin a + cos a * cos a)
                  + cos b * cos b
                    * ((sin a * sin a + cos a * cos a)
                       * (sin a * sin a + cos a * cos a))));
        [ring | rewrite Ha, Hs; lra].
Qed.

Lemma frame_worldUp_y (c : Camera R) (s : R) :
  worldUp c = mk_vec3 0 1 0 ->
  s * s = 1 -> 0 < s * cos (radians (pitch c)) ->
  right (updateCameraVectors c)
  = mk_vec3 (- s * sin (radians (yaw c))) 0 (s * cos (radians (yaw c))) /\
  up (updateCameraVectors c)
  = mk_vec3 (- s * cos (radians (yaw c)) * sin (radians (pitch c)))
            (s * cos (radians (pitch c)))
            (- s * sin (radians (yaw c)) * sin (radians (pitch c))).
Proof.
  intros Hw Hs Hcos.
  rewrite updateCameraVectors_reads.
  rewrite (normalize_unit (new_front_dot (yaw c) (pitch c))).
  cbv zeta. cbn [right up]. rewrite Hw.
  destruct (@frame_of_angles (radians (yaw c)) (radians (pitch c)) s Hs Hcos)
    as [Hr Hu].
  cbv zeta in Hr, Hu.
  change (new_front (yaw c) (pitch c))
    with (mk_vec3 (cos (radians (yaw c)) * cos (radians (pitch c)))
                  (sin (radians (pitch c)))
                  (sin (radians (yaw c)) * cos (radians (pitch c)))).
  rewrite Hr. split; [reflexivity | exact Hu].
Qed.

Lemma cos_radians_pos (p : R) : -89 <= p <= 89 -> 0 < cos (radians p).
Proof.
  intros Hp. pose proof PI_RGT_0 as Hpi. unfold radians. cbn.
  apply cos_gt_0; nra.
Qed.

(** X5.  In exact arithmetic (real numbers: no rounding, no overflow,
    no NaN).  With worldUp = (0, 1, 0) and pitch between -89 and 89, after a
    constructor or processMouseMovement right is (-sin yaw, 0, cos yaw),
    horizontal and the same for every pitch, and up is
    (-cos yaw sin pitch, cos pitch, -sin yaw sin pitch), whose y is positive:
    the camera does not roll and is never upside down. *)
Theorem frame_closed_form (c : Camera R) :
  orientation_call c ->
  worldUp c = mk_vec3 0 1 0 ->
  -89 <= pitch c <= 89 ->
  let ya := radians (yaw c) in
  let pt := radians (pitch c) in
  front c = mk_vec3 (cos ya * cos pt) (sin pt) (sin ya * cos pt) /\
  right c = mk_vec3 (- sin ya) 0 (cos ya) /\
  up c = mk_vec3 (- cos ya * sin pt) (cos pt) (- sin ya * sin pt) /\
  0 < y (up c).
Proof.
  intros Hc Hw Hp. apply orientation_call_inv in Hc.
  destruct Hc as (c0 & -> & Hw0). rewrite <- Hw0 in Hw.
  rewrite updateCameraVectors_pitch in Hp. cbv zeta.
  rewrite updateCameraVectors_yaw, updateCameraVectors_pitch.
  pose proof (cos_radians_pos Hp) as Hcos.
  destruct (@frame_worldUp_y c0 1 Hw) as [Hr Hu]; [ring | lra |].
  rewrite updateCameraVectors_front, Hr, Hu. cbn [y].
  repeat split; try (apply vec3_eq; cbn [x y z]; ring). lra.
Qed.

(** X6.  In exact arithmetic (real numbers: no rounding, no overflow,
    no NaN).  What the pitch constraint prevents: with worldUp = (0, 1, 0) and a
    pitch whose cosine is negative (beyond 90 degrees), right is
    (sin yaw, 0, -cos yaw), the opposite of what it is within the
    constraint, while up still points upward: the view is turned around the
    viewing direction by half a turn. *)
Theorem frame_flipped_beyond_90 (c : Camera R) :
  orientation_call c ->
  worldUp c = mk_vec3 0 1 0 ->
  cos (radians (pitch c)) < 0 ->
  let ya := radians (yaw c) in
  let pt := radians (pitch c) in
  right c = mk_vec3 (sin ya) 0 (- cos ya) /\
  up c = mk_vec3 (cos ya * sin pt) (- cos pt) (sin ya * sin pt) /\
  0 < y (up c).
Proof.
  intros Hc Hw Hcos. apply orientation_call_inv in Hc.
  destruct Hc as (c0 & -> & Hw0). rewrite <- Hw0 in Hw.
  rewrite updateCameraVectors_pitch in Hcos. cbv zeta.
  rewrite updateCameraVectors_yaw, updateCameraVectors_pitch.
  destruct (@frame_worldUp_y c0 (-1) Hw) as [Hr Hu]; [ring | lra |].
  rewrite Hr, Hu. cbn [y].
  repeat split; try (apply vec3_eq; cbn [x y z]; ring). lra.
Qed.

Lemma new_front_full_turn (yaw pitch : R) :
  new_front (yaw + 360) pitch = new_front yaw pitch.
Proof.
  unfold new_front, radians. cbn.
  replace ((yaw + 360) * (PI / 180)) with (yaw * (PI / 180) + 2 * PI) by lra.
  rewrite cos_plus, sin_plus, cos_2PI, sin_2PI.
  apply vec3_eq; cbn; ring.
Qed.

(* updateCameraVectors reads the state through yaw, pitch and worldUp. *)
Lemma updateCameraVectors_ext (c1 c2 : Camera R) :
  new_front (yaw c1) (pitch c1) = new_front (yaw c2) (pitch c2) ->
  worldUp c1 = worldUp c2 ->
  front (updateCameraVectors c1) = front (updateCameraVectors c2) /\
  right (updateCameraVectors c1) = right (updateCameraVectors c2) /\
  up (updateCameraVectors c1) = up (updateCameraVectors c2).
Proof.
  intros Hf Hw. rewrite !updateCameraVectors_reads. cbv zeta.
  cbn [front right up]. rewrite Hf, Hw. repeat split.
Qed.

Lemma updateCameraVectors_eq (c1 c2 : Camera R) :
  position c1 = position c2 -> worldUp c1 = worldUp c2 ->
  yaw c1 = yaw c2 -> pitch c1 = pitch c2 ->
  movementSpeed c1 = movementSpeed c2 ->
  mouseSensitivity c1 = mouseSensitivity c2 -> zoom c1 = zoom c2 ->
  updateCameraVectors c1 = updateCameraVectors c2.
Proof.
  intros Hp Hw Hy Hpt Hm Hs Hz.
  rewrite (updateCameraVectors_reads c1), (updateCameraVectors_reads c2).
  cbv zeta. rewrite Hp, Hw, Hy, Hpt, Hm, Hs, Hz. reflexivity.
Qed.

(* The state processMouseMovement hands to updateCameraVectors. *)
Lemma processMouseMovement_reads (c : Camera R) (xoffset yoffset : R)
    (invertPitch constrainPitch : bool) :
  processMouseMovement c xoffset yoffset invertPitch constrainPitch
  = updateCameraVectors
      (set_pitch (set_yaw c (yaw c + xoffset * mouseSensitivity c))
         (if constrainPitch
          then clamp (-89) 89 (pitch c + yoffset * mouseSensitivity c)
          else pitch c + yoffset * mouseSensitivity c)).
Proof.
  unfold processMouseMovement, fgtb. destruct constrainPitch; [| reflexivity].
  unfold clamp, Rmax, Rmin. cbn. rewrite !Q2R_int.
  repeat case_Rltb; repeat destruct Rle_dec; try lra;
    try reflexivity; do 2 f_equal; lra.
Qed.

(** X7.  In exact arithmetic (real numbers: no rounding, no overflow,
    no NaN).  A full turn of yaw gives the same view: a mouse movement whose
    scaled x-offset is 360 degrees larger yields the same front, right and
    up; yaw itself is not wrapped and differs by 360. *)
Theorem yaw_full_turn (c : Camera R) (xoffset yoffset : R)
    (invertPitch constrainPitch : bool) :
  mouseSensitivity c <> 0 ->
  let c1 := processMouseMovement c xoffset yoffset invertPitch
              constrainPitch in
  let c2 := processMouseMovement c (xoffset + 360 / mouseSensitivity c)
              yoffset invertPitch constrainPitch in
  front c2 = front c1 /\ right c2 = right c1 /\ up c2 = up c1 /\
  yaw c2 = yaw c1 + 360.
Proof.
  intros Hs. cbv zeta.
  rewrite (processMouseMovement_reads c xoffset).
  rewrite (processMouseMovement_reads c (xoffset + _)).
  assert (Hy : yaw c + (xoffset + 360 / mouseSensitivity c)
                       * mouseSensitivity c
               = yaw c + xoffset * mouseSensitivity c + 360)
    by (field; exact Hs).
  rewrite Hy.
  set (p := if constrainPitch then _ else _).
  destruct (@updateCameraVectors_ext
              (set_pitch (set_yaw c (yaw c + xoffset * mouseSensitivity c
                                     + 360)) p)
              (set_pitch (set_yaw c (yaw c + xoffset * mouseSensitivity c))
                         p))
    as (Hf & Hr & Hu).
  - cbn [yaw pitch set_yaw set_pitch]. apply new_front_full_turn.
  - reflexivity.
  - repeat split; assumption.
Qed.

(** X8.  In exact arithmetic (real numbers: no rounding, no overflow,
    no NaN).  Without the pitch constraint two mouse movements amount to one with
    the summed offsets. *)
Theorem mouse_movements_add (c : Camera R) (x1 y1 x2 y2 : R)
    (i1 i2 i3 : bool) :
  processMouseMovement (processMouseMovement c x1 y1 i1 false) x2 y2 i2 false
  = processMouseMovement c (x1 + x2) (y1 + y2) i3 false.
Proof.
  rewrite (processMouseMovement_reads _ x2), (processMouseMovement_reads c).
  rewrite (processMouseMovement_reads c).
  apply updateCameraVectors_eq;
    unfold updateCameraVectors;
    cbn [position worldUp yaw pitch movementSpeed mouseSensitivity zoom
         set_yaw set_pitch set_front set_right set_up];
    try reflexivity; ring.
Qed.

(** X9.  In exact arithmetic (real numbers: no rounding, no overflow,
    no NaN).  A mouse movement that stays within the pitch constraint is undone by
    the opposite movement: from a state with pitch between -89 and 89 and a
    derived frame, when pitch + yoffset * mouseSensitivity is between -89 and
    89 too, the offsets (x, y) followed by (-x, -y) give the state back. *)
Theorem mouse_movement_undone (c : Camera R) (xoffset yoffset : R) :
  -89 <= pitch c <= 89 ->
  updateCameraVectors c = c ->
  -89 <= pitch c + yoffset * mouseSensitivity c <= 89 ->
  processMouseMovement (processMouseMovement c xoffset yoffset true true)
    (- xoffset) (- yoffset) true true
  = c.
Proof.
  intros Hp Hc Hy. rewrite <- Hc at 2.
  rewrite (processMouseMovement_reads _ (- xoffset)).
  rewrite (processMouseMovement_reads c).
  assert (H1 : clamp (-89) 89 (pitch c + yoffset * mouseSensitivity c)
               = pitch c + yoffset * mouseSensitivity c).
  { unfold clamp, Rmax, Rmin. repeat destruct Rle_dec; lra. }
  rewrite H1.
  apply updateCameraVectors_eq;
    unfold updateCameraVectors;
    cbn [position worldUp yaw pitch movementSpeed mouseSensitivity zoom
         set_yaw set_pitch set_front set_right set_up];
    try reflexivity; try ring.
  unfold clamp, Rmax, Rmin. repeat destruct Rle_dec; lra.
Qed.

(** X10.  In exact arithmetic (real numbers: no rounding, no overflow,
    no NaN).  A mouse movement that runs into the upper pitch bound is not undone
    by the opposite movement: from a pitch between -89 and 89, when
    pitch + yoffset * mouseSensitivity exceeds 89 and the way back stays
    above -89, the two calls leave pitch at 89 - yoffset * mouseSensitivity,
    below the pitch they started from. *)
Theorem mouse_movement_saturates (c : Camera R) (xoffset yoffset : R) :
  -89 <= pitch c <= 89 ->
  89 < pitch c + yoffset * mouseSensitivity c ->
  -89 <= 89 - yoffset * mouseSensitivity c ->
  let c' := processMouseMovement
              (processMouseMovement c xoffset yoffset true true)
              (- xoffset) (- yoffset) true true in
  pitch c' = 89 - yoffset * mouseSensitivity c /\ pitch c' < pitch c.
Proof.
  intros Hp Hy Hb. cbv zeta. rewrite processMouseMovement_pitch.
  replace (mouseSensitivity (processMouseMovement c xoffset yoffset true true))
    with (mouseSensitivity c)
    by (rewrite processMouseMovement_reads; reflexivity).
  rewrite processMouseMovement_pitch.
  unfold clamp, Rmax, Rmin. repeat destruct Rle_dec; split; lra.
Qed.

Lemma vlength_scale (a : vec3 R) (k : R) :
  vlength a = 1 -> vlength (scale a k) = Rabs k.
Proof.
  intros Ha. apply vlength_1 in Ha. unfold vlength.
  rewrite dot_scale_l, dot_scale_r, Ha.
  replace (k * (k * 1)) with (Rsqr k) by (unfold Rsqr; ring).
  apply sqrt_Rsqr_abs.
Qed.

(* The displacement of processKeyboard. *)
Lemma processKeyboard_step (c : Camera R) (direction : Camera_Movement)
    (deltaTime : R) :
  let v := movementSpeed c * deltaTime in
  sub (position (processKeyboard c direction deltaTime)) (position c)
  = match direction with
    | FORWARD => scale (front c) v
    | BACKWARD => scale (front c) (- v)
    | LEFT => scale (right c) (- v)
    | RIGHT => scale (right c) v
    end.
Proof. destruct direction; apply vec3_eq; cbn; ring. Qed.

(** X11.  In exact arithmetic (real numbers: no rounding, no overflow,
    no NaN).  Movement speed does not depend on where the camera looks: when
    front and right have length 1, as updateCameraVectors leaves them,
    processKeyboard moves position by the distance
    |movementSpeed * deltaTime| in each of the four directions. *)
Theorem keyboard_distance (c : Camera R) (direction : Camera_Movement)
    (deltaTime : R) :
  vlength (front c) = 1 -> vlength (right c) = 1 ->
  vlength (sub (position (processKeyboard c direction deltaTime))
               (position c))
  = Rabs (movementSpeed c * deltaTime).
Proof.
  intros Hf Hr. rewrite processKeyboard_step. cbv zeta.
  destruct direction; rewrite vlength_scale; auto; apply Rabs_Ropp.
Qed.

(** X12.  Opposite movements cancel in either order: LEFT then RIGHT,
    RIGHT then LEFT and BACKWARD then FORWARD with the same deltaTime give
    the state back. *)
Theorem opposite_movements_cancel (c : Camera R) (deltaTime : R) :
  processKeyboard (processKeyboard c LEFT deltaTime) RIGHT deltaTime = c /\
  processKeyboard (processKeyboard c RIGHT deltaTime) LEFT deltaTime = c /\
  processKeyboard (processKeyboard c BACKWARD deltaTime) FORWARD deltaTime
  = c.
Proof.
  destruct c as [p f u r w ya pt ms se zo].
  split; [| split]; unfold processKeyboard; cbn; unfold set_position; cbn;
    f_equal; apply vec3_eq; cbn; ring.
Qed.

(** X13.  Two movements commute: the position after two processKeyboard
    calls does not depend on their order, whatever the directions and the
    frame times are. *)
Theorem movements_commute (c : Camera R) (d1 d2 : Camera_Movement)
    (t1 t2 : R) :
  processKeyboard (processKeyboard c d1 t1) d2 t2
  = processKeyboard (processKeyboard c d2 t2) d1 t1.
Proof.
  destruct c as [p f u r w ya pt ms se zo].
  destruct d1, d2; unfold processKeyboard; cbn; unfold set_position; cbn;
    f_equal; apply vec3_eq; cbn; ring.
Qed.

(** * The application, in exact arithmetic *)

Lemma processKeyboard_reads (c : Camera R) (direction : Camera_Movement)
    (deltaTime : R) :
  processKeyboard c direction deltaTime
  = set_position c
      (match direction with
       | FORWARD =>
           add (position c) (scale (front c) (movementSpeed c * deltaTime))
       | BACKWARD =>
           sub (position c) (scale (front c) (movementSpeed c * deltaTime))
       | LEFT =>
           sub (position c) (scale (right c) (movementSpeed c * deltaTime))
       | RIGHT =>
           add (position c) (scale (right c) (movementSpeed c * deltaTime))
       end).
Proof. destruct c, direction; reflexivity. Qed.

(* What processInput does to the globals, by the keys that are down. *)
Lemma processInput_reads (g : Globals R R) (pressed : Key -> bool) :
  let v := movementSpeed (cam g) * deltaTime g in
  let dz := (key_weight pressed GLFW_KEY_W - key_weight pressed GLFW_KEY_S)
            * v in
  let dx := (key_weight pressed GLFW_KEY_D - key_weight pressed GLFW_KEY_A)
            * v in
  processInput g pressed
  = mk_Globals
      (set_position (cam g)
         (add (add (position (cam g)) (scale (front (cam g)) dz))
              (scale (right (cam g)) dx)))
      (deltaTime g) (lastFrame g) (firstMouse g) (lastX g) (lastY g)
      (pressed GLFW_KEY_ESCAPE || windowShouldClose g).
Proof.
  destruct g as [[p f u r w ya pt ms se zo] dt lf fm lx ly cl].
  unfold processInput, key_weight. cbv zeta.
  destruct (pressed GLFW_KEY_ESCAPE), (pressed GLFW_KEY_W),
    (pressed GLFW_KEY_S), (pressed GLFW_KEY_A), (pressed GLFW_KEY_D);
    unfold set_cam; cbn -[processKeyboard];
    rewrite ?processKeyboard_reads; unfold set_position; cbn;
    f_equal; f_equal; apply vec3_eq; cbn; ring.
Qed.

(** X14.  In exact arithmetic (real numbers: no rounding, no overflow,
    no NaN).  The net movement of processInput: position moves by
    (W - S) * v along front and (D - A) * v along right, where a key counts 1
    when it is down and v = movementSpeed * deltaTime; so opposite keys held
    together cancel, and with all keys down the camera is unchanged. *)
Theorem processInput_displacement (g : Globals R R) (pressed : Key -> bool) :
  let v := movementSpeed (cam g) * deltaTime g in
  let dz := (key_weight pressed GLFW_KEY_W - key_weight pressed GLFW_KEY_S)
            * v in
  let dx := (key_weight pressed GLFW_KEY_D - key_weight pressed GLFW_KEY_A)
            * v in
  position (cam (processInput g pressed))
  = add (add (position (cam g)) (scale (front (cam g)) dz))
        (scale (right (cam g)) dx) /\
  cam (processInput g (fun _ => true)) = cam g.
Proof.
  cbv zeta. rewrite !processInput_reads. cbv zeta. cbn [cam position].
  split; [reflexivity |]. unfold key_weight.
  destruct (cam g) as [p f u r w ya pt ms se zo].
  unfold set_position. cbn. f_equal. apply vec3_eq; cbn; ring.
Qed.

(** X15.  In exact arithmetic (real numbers: no rounding, no overflow,
    no NaN).  Diagonal movement is faster: with an orthonormal frame, one of W
    and S down together with one of A and D moves position by
    sqrt 2 * |movementSpeed * deltaTime|, against
    |movementSpeed * deltaTime| for a single key. *)
Theorem diagonal_movement_distance (g : Globals R R)
    (pressed : Key -> bool) :
  orthonormal_frame (cam g) ->
  pressed GLFW_KEY_W = negb (pressed GLFW_KEY_S) ->
  pressed GLFW_KEY_A = negb (pressed GLFW_KEY_D) ->
  vlength (sub (position (cam (processInput g pressed)))
               (position (cam g)))
  = sqrt 2 * Rabs (movementSpeed (cam g) * deltaTime g).
Proof.
  intros Ho Hws Had. rewrite processInput_reads. cbv zeta.
  cbn [cam position set_position].
  pose proof (proj1 (vlength_1 _) (front_unit Ho)) as Hf.
  pose proof (proj1 (vlength_1 _) (right_unit Ho)) as Hr.
  pose proof (front_right Ho) as Hfr.
  set (v := movementSpeed (cam g) * deltaTime g).
  assert (Hd : forall a b : R, a * a = 1 -> b * b = 1 ->
            vlength (sub (add (add (position (cam g))
                                   (scale (front (cam g)) (a * v)))
                              (scale (right (cam g)) (b * v)))
                         (position (cam g)))
            = sqrt 2 * Rabs v).
  { intros a b Ha Hb. unfold vlength.
    replace (dot _ _) with (2 * Rsqr v).
    - rewrite sqrt_mult; [| lra | apply Rle_0_sqr].
      rewrite sqrt_Rsqr_abs. reflexivity.
    - destruct (position (cam g)) as [p1 p2 p3],
        (front (cam g)) as [f1 f2 f3], (right (cam g)) as [r1 r2 r3].
      cbn in *. unfold Rsqr.
      transitivity
        (v * v * (a * a * (f1 * f1 + f2 * f2 + f3 * f3)
                  + b * b * (r1 * r1 + r2 * r2 + r3 * r3)
                  + 2 * a * b * (f1 * r1 + f2 * r2 + f3 * r3)));
        [rewrite Hf, Hr, Hfr, Ha, Hb; ring | ring]. }
  unfold key_weight. rewrite Hws, Had.
  destruct (pressed GLFW_KEY_S), (pressed GLFW_KEY_D); cbn [negb];
    apply Hd; ring.
Qed.

(* What mouse_callback does to the globals. *)
Lemma mouse_callback_reads (g : Globals R R) (xpos ypos : R) :
  mouse_callback g xpos ypos
  = mk_Globals
      (processMouseMovement (cam g)
         (xpos - (if firstMouse g then xpos else lastX g))
         ((if firstMouse g then ypos else lastY g) - ypos) true true)
      (deltaTime g) (lastFrame g) false xpos ypos (windowShouldClose g).
Proof.
  destruct g as [c dt lf fm lx ly cl]. unfold mouse_callback, set_cam.
  destruct fm; reflexivity.
Qed.

(* What an event keeps of the globals. *)
Lemma dispatch_keeps (g : Globals R R) (e : Event R) :
  let g' := dispatch g e in
  deltaTime g' = deltaTime g /\ lastFrame g' = lastFrame g /\
  position (cam g') = position (cam g) /\
  (windowShouldClose g = true -> windowShouldClose g' = true).
Proof.
  cbv zeta. destruct e as [xpos ypos | xoffset yoffset |].
  - unfold dispatch. rewrite mouse_callback_reads.
    cbn [deltaTime lastFrame cam windowShouldClose].
    rewrite processMouseMovement_reads. auto.
  - destruct g as [c dt lf fm lx ly cl]. cbn. auto.
  - destruct g as [c dt lf fm lx ly cl]. cbn. auto.
Qed.

Lemma fold_dispatch_keeps (events : list (Event R)) (g : Globals R R) :
  let g' := fold_left dispatch events g in
  deltaTime g' = deltaTime g /\ lastFrame g' = lastFrame g /\
  position (cam g') = position (cam g) /\
  (windowShouldClose g = true -> windowShouldClose g' = true).
Proof.
  cbv zeta. revert g. induction events as [| e rest IH]; intros g.
  - cbn. auto.
  - cbn [fold_left]. destruct (IH (dispatch g e)) as (H1 & H2 & H3 & H4).
    destruct (dispatch_keeps g e) as (K1 & K2 & K3 & K4).
    rewrite H1, H2, H3, K1, K2, K3.
    split; [| split; [| split]]; try reflexivity. intros Hc. auto.
Qed.

(** X16.  The keys move nothing in the first frame: processInput runs before
    the frame time is taken and uses the deltaTime of the frame before, which
    is 0 at the start, so after the first iteration position is still
    (0, 0, 3), whatever keys are down and whatever events arrive. *)
Theorem first_frame_keeps_position (i : FrameInput R) :
  position (cam (loop_body main_init i)) = mk_vec3 0 0 3.
Proof.
  unfold loop_body.
  destruct (fold_dispatch_keeps (glfwPollEvents i)
              (mk_Globals (cam (processInput main_init (glfwGetKey i)))
                 (to_float (glfwGetTime i)
                  - lastFrame (processInput main_init (glfwGetKey i)))
                 (to_float (glfwGetTime i))
                 (firstMouse (processInput main_init (glfwGetKey i)))
                 (lastX (processInput main_init (glfwGetKey i)))
                 (lastY (processInput main_init (glfwGetKey i)))
                 (windowShouldClose (processInput main_init (glfwGetKey i)))))
    as (_ & _ & Hp & _).
  cbv zeta. cbn [fsub R_FloatOps]. rewrite Hp. cbn [cam].
  rewrite processInput_reads. cbv zeta. cbn [cam position set_position].
  unfold main_init. cbn [cam deltaTime]. rewrite camera_eq.
  cbn [position front right movementSpeed set_movementSpeed
       set_mouseSensitivity flit R_FloatOps].
  rewrite !Q2R_int. apply vec3_eq; cbn; ring.
Qed.

(* The frame time after an iteration of the loop. *)
Lemma loop_body_time (g : Globals R R) (i : FrameInput R) :
  deltaTime (loop_body g i) = glfwGetTime i - lastFrame g /\
  lastFrame (loop_body g i) = glfwGetTime i.
Proof.
  unfold loop_body. cbv zeta.
  match goal with
  | |- context [fold_left dispatch ?es ?g0] =>
      destruct (fold_dispatch_keeps es g0) as (H1 & H2 & _)
  end.
  rewrite H1, H2. cbn [deltaTime lastFrame].
  rewrite processInput_reads. cbv zeta. cbn. auto.
Qed.

(** X17.  The loop hands processInput no negative deltaTime: when the clock
    does not run backwards, from the lastFrame of the state on, deltaTime is
    not negative after any number of iterations. *)
Theorem deltaTime_nonnegative (g : Globals R R)
    (frames : list (FrameInput R)) :
  0 <= deltaTime g ->
  Sorted Rle (lastFrame g :: map (@glfwGetTime R) frames) ->
  0 <= deltaTime (main_loop g frames).
Proof.
  revert g. induction frames as [| i rest IH]; intros g Hd Hs.
  - exact Hd.
  - cbn [main_loop]. destruct (windowShouldClose g); [exact Hd |].
    destruct (loop_body_time g i) as [Ht Hl].
    cbn [map] in Hs. apply Sorted_inv in Hs. destruct Hs as [Hs Hh].
    apply HdRel_inv in Hh.
    apply IH.
    + rewrite Ht. lra.
    + rewrite Hl. exact Hs.
Qed.

Lemma clamp_id (lo hi v : R) : lo <= v <= hi -> clamp lo hi v = v.
Proof.
  intros Hv. unfold clamp, Rmax, Rmin. repeat destruct Rle_dec; lra.
Qed.

(* A mouse movement with offsets that are zero, from a state within the
   constraint whose frame is derived. *)
Lemma processMouseMovement_null (c : Camera R) (xoffset yoffset : R) :
  xoffset = 0 -> yoffset = 0 ->
  -89 <= pitch c <= 89 -> updateCameraVectors c = c ->
  processMouseMovement c xoffset yoffset true true = c.
Proof.
  intros -> -> Hp Hc. rewrite <- Hc at 2.
  rewrite processMouseMovement_reads.
  apply updateCameraVectors_eq;
    cbn [position worldUp yaw pitch movementSpeed mouseSensitivity zoom
         set_yaw set_pitch];
    try reflexivity; try ring.
  rewrite clamp_id; [ring | lra].
Qed.

(** X18.  The first cursor event turns nothing: while firstMouse is set,
    mouse_callback measures the offsets from the position it is given, so a
    camera within the pitch constraint and with a derived frame is left as it
    is, wherever the cursor enters; the position is recorded and firstMouse
    is cleared. *)
Theorem first_cursor_event_keeps_camera (g : Globals R R) (xpos ypos : R) :
  firstMouse g = true ->
  -89 <= pitch (cam g) <= 89 ->
  updateCameraVectors (cam g) = cam g ->
  let g' := mouse_callback g xpos ypos in
  cam g' = cam g /\ firstMouse g' = false /\
  lastX g' = xpos /\ lastY g' = ypos.
Proof.
  intros Hf Hp Hc. cbv zeta. rewrite mouse_callback_reads, Hf.
  cbn [cam firstMouse lastX lastY].
  split; [| auto].
  apply processMouseMovement_null; auto; ring.
Qed.

Lemma last_cons (A : Type) (a d : A) (l : list A) :
  last (a :: l) d = last l a.
Proof.
  revert a d. induction l as [| b l IH]; intros a d; [reflexivity |].
  change (last (a :: b :: l) d) with (last (b :: l) d).
  rewrite (IH b d), (IH b a). reflexivity.
Qed.

Lemma mouse_callback_yaw (g : Globals R R) (xpos ypos : R) :
  let g' := mouse_callback g xpos ypos in
  yaw (cam g')
  = yaw (cam g)
    + (xpos - (if firstMouse g then xpos else lastX g))
      * mouseSensitivity (cam g) /\
  mouseSensitivity (cam g') = mouseSensitivity (cam g) /\
  firstMouse g' = false /\ lastX g' = xpos /\ lastY g' = ypos.
Proof.
  cbv zeta. rewrite mouse_callback_reads.
  cbn [cam firstMouse lastX lastY]. rewrite processMouseMovement_reads.
  repeat split.
Qed.

Lemma cursor_moves_yaw (positions : list (R * R)) (g : Globals R R) :
  firstMouse g = false ->
  yaw (cam (fold_left (fun g p => mouse_callback g (fst p) (snd p))
                      positions g))
  = yaw (cam g)
    + (fst (last positions (lastX g, lastY g)) - lastX g)
      * mouseSensitivity (cam g).
Proof.
  revert g. induction positions as [| [xpos ypos] rest IH]; intros g Hf.
  - cbn. ring.
  - cbn [fold_left fst snd]. rewrite last_cons.
    destruct (mouse_callback_yaw g xpos ypos) as (Hy & Hs & Hf' & Hx & Hl).
    cbv zeta in *. rewrite (IH _ Hf'), Hy, Hs, Hx, Hl, Hf. ring.
Qed.

(** X19.  In exact arithmetic (real numbers: no rounding, no overflow,
    no NaN).  Yaw depends on where the cursor went, not on how: after any
    sequence of cursor events yaw has changed by mouseSensitivity times the
    distance from the column the offsets start at (the first position while
    firstMouse is set, the recorded lastX otherwise) to the last column. *)
Theorem yaw_follows_cursor (g : Globals R R) (positions : list (R * R)) :
  yaw (cam (fold_left (fun g p => mouse_callback g (fst p) (snd p))
                      positions g))
  = yaw (cam g)
    + (fst (last positions (lastX g, lastY g)) - cursor_origin g positions)
      * mouseSensitivity (cam g).
Proof.
  unfold cursor_origin. destruct (firstMouse g) eqn:Hf.
  - destruct positions as [| [xpos ypos] rest]; [cbn; ring |].
    cbn [fold_left fst snd]. rewrite last_cons.
    destruct (mouse_callback_yaw g xpos ypos) as (Hy & Hs & Hf' & Hx & Hl).
    cbv zeta in *. rewrite (cursor_moves_yaw _ _ Hf'), Hy, Hs, Hx, Hl, Hf.
    ring.
  - apply cursor_moves_yaw, Hf.
Qed.

(** X21.  In exact arithmetic (real numbers: no rounding, no overflow,
    no NaN).  Scrolling is never clamped by the application: after any events
    zoom is the zoom before minus the sum of the scroll y-offsets, whatever
    cursor events lie between. *)
Theorem zoom_follows_scroll (g : Globals R R) (events : list (Event R)) :
  zoom (cam (fold_left dispatch events g))
  = zoom (cam g) - scroll_total events.
Proof.
  revert g. induction events as [| e rest IH]; intros g.
  - cbn. ring.
  - cbn [fold_left]. rewrite IH.
    destruct e as [xpos ypos | xoffset yoffset |]; cbn [scroll_total].
    + unfold dispatch. rewrite mouse_callback_reads. cbn [cam].
      rewrite processMouseMovement_reads. reflexivity.
    + destruct g as [c dt lf fm lx ly cl]. cbn. ring.
    + destruct g as [c dt lf fm lx ly cl]. reflexivity.
Qed.

(** X22.  Escape ends the loop after the iteration that sees it: the keys of
    that iteration still move the camera and its events are still
    dispatched, and no later iteration runs. *)
Theorem escape_ends_loop (g : Globals R R) (i : FrameInput R)
    (rest : list (FrameInput R)) :
  windowShouldClose g = false ->
  glfwGetKey i GLFW_KEY_ESCAPE = true ->
  main_loop g (i :: rest) = loop_body g i /\
  windowShouldClose (loop_body g i) = true.
Proof.
  intros Hc He.
  assert (Hl : windowShouldClose (loop_body g i) = true).
  { unfold loop_body. cbv zeta.
    match goal with
    | |- context [fold_left dispatch ?es ?g0] =>
        destruct (fold_dispatch_keeps es g0) as (_ & _ & _ & H4)
    end.
    apply H4. cbn [windowShouldClose].
    rewrite processInput_reads. cbv zeta. cbn [windowShouldClose].
    rewrite He. reflexivity. }
  split; [| exact Hl]. cbn [main_loop]. rewrite Hc.
  destruct rest as [| j rest]; [reflexivity |].
  cbn [main_loop]. rewrite Hl. reflexivity.
Qed.

Section FrameKept.
Context {F D : Type} {ops : FloatOps F D}.

(* Writing position or zoom and deriving the frame commute. *)
Lemma updateCameraVectors_set_position (c : Camera F) (v : vec3 F) :
  updateCameraVectors (set_position c v)
  = set_position (updateCameraVectors c) v.
Proof. reflexivity. Qed.

Lemma updateCameraVectors_set_zoom (c : Camera F) (a : F) :
  updateCameraVectors (set_zoom c a) = set_zoom (updateCameraVectors c) a.
Proof. reflexivity. Qed.

End FrameKept.

Lemma app_invariant_camera (g g' : Globals R R) :
  app_invariant g ->
  worldUp (cam g') = worldUp (cam g) ->
  mouseSensitivity (cam g') = mouseSensitivity (cam g) ->
  movementSpeed (cam g') = movementSpeed (cam g) ->
  -89 <= pitch (cam g') <= 89 ->
  updateCameraVectors (cam g') = cam g' ->
  app_invariant g'.
Proof.
  intros [Hw Hs Hm Hp Hf] Hw' Hs' Hm' Hp' Hf'.
  constructor; congruence || assumption.
Qed.

Lemma app_invariant_init : app_invariant main_init.
Proof.
  constructor; unfold main_init; cbn [cam].
  - rewrite camera_eq. reflexivity.
  - cbn. unfold Q2R. cbn. lra.
  - cbn. rewrite Q2R_int. reflexivity.
  - rewrite camera_eq. cbn. lra.
  - unfold camera, Camera_vectors. reflexivity.
Qed.

Lemma app_invariant_input (g : Globals R R) (pressed : Key -> bool) :
  app_invariant g -> app_invariant (processInput g pressed).
Proof.
  intros Hi. rewrite processInput_reads. cbv zeta.
  apply (@app_invariant_camera _ _ Hi); cbn [cam]; try reflexivity.
  - apply (inv_pitch Hi).
  - rewrite updateCameraVectors_set_position, (inv_frame Hi). reflexivity.
Qed.

Lemma app_invariant_dispatch (g : Globals R R) (e : Event R) :
  app_invariant g -> app_invariant (dispatch g e).
Proof.
  intros Hi. destruct e as [xpos ypos | xoffset yoffset |].
  - unfold dispatch. rewrite mouse_callback_reads.
    apply (@app_invariant_camera _ _ Hi); cbn [cam].
    + rewrite processMouseMovement_reads. reflexivity.
    + rewrite processMouseMovement_reads. reflexivity.
    + rewrite processMouseMovement_reads. reflexivity.
    + rewrite processMouseMovement_pitch. apply clamp_bounds. lra.
    + rewrite processMouseMovement_reads. apply updateCameraVectors_idem.
  - pose proof (inv_pitch Hi) as Hp. pose proof (inv_frame Hi) as Hf.
    apply (@app_invariant_camera _ _ Hi);
      destruct g as [c dt lf fm lx ly cl]; cbn [dispatch cam set_cam] in *;
      try reflexivity.
    + exact Hp.
    + unfold scroll_callback, processMouseScroll. cbn [negb].
      rewrite updateCameraVectors_set_zoom, Hf. reflexivity.
  - apply (@app_invariant_camera _ _ Hi);
      destruct g as [c dt lf fm lx ly cl]; cbn [dispatch cam] in *;
      try reflexivity.
    + apply (inv_pitch Hi).
    + apply (inv_frame Hi).
Qed.

Lemma app_invariant_loop_body (g : Globals R R) (i : FrameInput R) :
  app_invariant g -> app_invariant (loop_body g i).
Proof.
  intros Hi. unfold loop_body. cbv zeta.
  apply (@app_invariant_input g (glfwGetKey i)) in Hi.
  set (g1 := processInput g (glfwGetKey i)) in *.
  assert (H2 : app_invariant
                 (mk_Globals (cam g1)
                    (fsub (to_float (glfwGetTime i)) (lastFrame g1))
                    (to_float (glfwGetTime i)) (firstMouse g1) (lastX g1)
                    (lastY g1) (windowShouldClose g1))).
  { apply (@app_invariant_camera _ _ Hi); cbn [cam]; try reflexivity.
    - apply (inv_pitch Hi).
    - apply (inv_frame Hi). }
  revert H2. generalize (mk_Globals (cam g1)
                    (fsub (to_float (glfwGetTime i)) (lastFrame g1))
                    (to_float (glfwGetTime i)) (firstMouse g1) (lastX g1)
                    (lastY g1) (windowShouldClose g1)).
  induction (glfwPollEvents i) as [| e rest IH]; intros g2 H2.
  - exact H2.
  - cbn [fold_left]. apply IH, app_invariant_dispatch, H2.
Qed.

Lemma app_invariant_orthonormal (g : Globals R R) :
  app_invariant g ->
  orthonormal_frame (cam g) /\
  y (right (cam g)) = 0 /\ 0 < y (up (cam g)).
Proof.
  intros [Hw Hs Hm Hp Hf].
  pose proof (cos_radians_pos Hp) as Hcos.
  destruct (@frame_worldUp_y (cam g) 1 Hw) as [Hr Hu]; [ring | lra |].
  rewrite Hf in Hr, Hu. split; [| split].
  - rewrite <- Hf. apply updateCameraVectors_frame.
    + rewrite Hw. apply vlength_1. cbn. ring.
    + apply worldUp_y_not_parallel; assumption.
  - rewrite Hr. reflexivity.
  - rewrite Hu. cbn [y]. lra.
Qed.

(** X20.  In exact arithmetic (real numbers: no rounding, no overflow,
    no NaN).  While the application runs, its camera stays well formed: after any
    number of iterations of the loop, with any keys, clock and events,
    worldUp is (0, 1, 0), mouseSensitivity 0.2, movementSpeed 2, pitch lies
    between -89 and 89, and front, right, up are unit vectors, pairwise
    orthogonal, with right horizontal and up pointing upward. *)
Theorem application_camera_invariant (frames : list (FrameInput R)) :
  let c := cam (main_loop main_init frames) in
  worldUp c = mk_vec3 0 1 0 /\
  mouseSensitivity c = 0.2 /\ movementSpeed c = 2 /\
  -89 <= pitch c <= 89 /\
  orthonormal_frame c /\
  y (right c) = 0 /\ 0 < y (up c).
Proof.
  cbv zeta.
  assert (Hi : app_invariant (main_loop main_init frames)).
  { generalize (@app_invariant_init).
    generalize (@main_init R R _ _).
    induction frames as [| i rest IH]; intros g Hg; cbn [main_loop].
    - exact Hg.
    - destruct (windowShouldClose g); [exact Hg |].
      apply IH, app_invariant_loop_body, Hg. }
  pose proof (app_invariant_orthonormal Hi) as Ho.
  destruct Hi as [Hw Hs Hm Hp Hf]. tauto.
Qed.

(** * Witnesses *)

Lemma camera_orientation_call : orientation_call (@camera R R _).
Proof. apply oc_vectors. Qed.

Lemma camera_worldUp_unit : vlength (worldUp (@camera R R _)) = 1.
Proof. rewrite camera_eq. apply vlength_1. cbn. ring. Qed.

Lemma camera_not_parallel :
  ~ parallel (front (@camera R R _)) (worldUp (@camera R R _)).
Proof.
  rewrite camera_eq. cbn [front worldUp]. intros [k Hk].
  apply (f_equal (@z R)) in Hk. cbn in Hk. lra.
Qed.

Lemma camera_worldUp : worldUp (@camera R R _) = mk_vec3 0 1 0.
Proof. rewrite camera_eq. reflexivity. Qed.

Lemma camera_pitch : -89 <= pitch (@camera R R _) <= 89.
Proof. rewrite camera_eq. cbn. lra. Qed.

Lemma camera_frame : updateCameraVectors (@camera R R _) = camera.
Proof. unfold camera, Camera_vectors. apply updateCameraVectors_idem. Qed.

Lemma frame_right_handed_witness :
  up (@camera R R _) = cross (right camera) (front camera) /\
  cross (front (@camera R R _)) (up camera) = right camera /\
  cross (up (@camera R R _)) (right camera) = front camera.
Proof.
  exact (frame_right_handed camera_orientation_call camera_worldUp_unit
           camera_not_parallel).
Defined.

Lemma frame_closed_form_witness :
  right (@camera R R _)
  = mk_vec3 (- sin (radians (yaw (@camera R R _)))) 0
            (cos (radians (yaw (@camera R R _)))).
Proof.
  exact (proj1 (proj2 (frame_closed_form camera_orientation_call
                         camera_worldUp camera_pitch))).
Defined.

Lemma frame_flipped_beyond_90_witness :
  let c := Camera_vectors (mk_vec3 0 0 0) (mk_vec3 0 1 0) 0 180 in
  cos (radians (pitch c)) < 0 /\
  right c = mk_vec3 (sin (radians (yaw c))) 0 (- cos (radians (yaw c))).
Proof.
  cbv zeta.
  assert (H1 : orientation_call
                 (Camera_vectors (mk_vec3 0 0 0) (mk_vec3 0 1 0) 0 180))
    by apply oc_vectors.
  assert (H2 : worldUp (Camera_vectors (mk_vec3 0 0 0) (mk_vec3 0 1 0) 0 180)
               = mk_vec3 0 1 0) by reflexivity.
  assert (H3 : cos (radians (pitch (Camera_vectors (mk_vec3 0 0 0)
                                      (mk_vec3 0 1 0) 0 180))) < 0).
  { unfold Camera_vectors. rewrite updateCameraVectors_pitch.
    cbn [pitch]. unfold radians. cbn.
    replace (180 * (PI / 180)) with PI by lra. rewrite cos_PI. lra. }
  exact (conj H3 (proj1 (frame_flipped_beyond_90 H1 H2 H3))).
Defined.

Lemma camera_sensitivity : mouseSensitivity (@camera R R _) <> 0.
Proof. rewrite camera_eq. cbn. lra. Qed.

Lemma yaw_full_turn_witness :
  yaw (processMouseMovement (@camera R R _)
         (5 + 360 / mouseSensitivity camera) 7 true true)
  = yaw (processMouseMovement (@camera R R _) 5 7 true true) + 360.
Proof.
  exact (proj2 (proj2 (proj2
           (@yaw_full_turn camera 5 7 true true camera_sensitivity)))).
Defined.

Lemma mouse_movement_undone_witness :
  -89 <= pitch (@camera R R _) + 10 * mouseSensitivity camera <= 89 /\
  processMouseMovement (processMouseMovement (@camera R R _) 5 10 true true)
    (- 5) (- 10) true true
  = camera.
Proof.
  assert (H : -89 <= pitch (@camera R R _) + 10 * mouseSensitivity camera
              <= 89).
  { rewrite camera_eq. cbn. lra. }
  exact (conj H (@mouse_movement_undone camera 5 10 camera_pitch
                   camera_frame H)).
Defined.

Lemma mouse_movement_saturates_witness :
  89 < pitch (@camera R R _) + 1000 * mouseSensitivity camera /\
  pitch (processMouseMovement
           (processMouseMovement (@camera R R _) 5 1000 true true)
           (- 5) (- 1000) true true)
  < pitch camera.
Proof.
  assert (H1 : 89 < pitch (@camera R R _) + 1000 * mouseSensitivity camera).
  { rewrite camera_eq. cbn. lra. }
  assert (H2 : -89 <= 89 - 1000 * mouseSensitivity (@camera R R _)).
  { rewrite camera_eq. cbn. lra. }
  exact (conj H1 (proj2 (@mouse_movement_saturates camera 5 1000
                           camera_pitch H1 H2))).
Defined.

Lemma keyboard_distance_witness :
  vlength (front (@camera R R _)) = 1 /\ vlength (right (@camera R R _)) = 1 /\
  vlength (sub (position (processKeyboard (@camera R R _) LEFT 4))
               (position camera))
  = Rabs (movementSpeed camera * 4).
Proof.
  assert (H1 : vlength (front (@camera R R _)) = 1).
  { rewrite camera_eq. apply vlength_1. cbn. ring. }
  assert (H2 : vlength (right (@camera R R _)) = 1).
  { rewrite camera_eq. apply vlength_1. cbn. ring. }
  exact (conj H1 (conj H2 (@keyboard_distance camera LEFT 4 H1 H2))).
Defined.

Lemma diagonal_movement_distance_witness :
  let pressed := fun k => match k with
                          | GLFW_KEY_W | GLFW_KEY_D => true
                          | _ => false
                          end in
  let g := loop_body (@main_init R R _ _)
             (mk_FrameInput (fun _ => false) 1 []) in
  orthonormal_frame (cam g) /\
  movementSpeed (cam g) * deltaTime g = 2 /\
  vlength (sub (position (cam (processInput g pressed))) (position (cam g)))
  = sqrt 2 * Rabs (movementSpeed (cam g) * deltaTime g).
Proof.
  cbv zeta.
  pose proof (app_invariant_loop_body
                (mk_FrameInput (fun _ => false) 1 []) app_invariant_init)
    as Hi.
  pose proof (proj1 (app_invariant_orthonormal Hi)) as Ho.
  split; [exact Ho | split].
  - rewrite (inv_speed Hi).
    rewrite (proj1 (loop_body_time main_init
                      (mk_FrameInput (fun _ => false) 1 []))).
    cbn. rewrite Q2R_int. lra.
  - apply (@diagonal_movement_distance _ _ Ho); reflexivity.
Defined.

Lemma deltaTime_nonnegative_witness :
  let frames := [mk_FrameInput (fun _ => false) 1 [];
                 mk_FrameInput (fun _ => true) 2 [CursorPos 3 4]] in
  Sorted Rle (lastFrame (@main_init R R _ _) :: map (@glfwGetTime R) frames)
  /\ 0 <= deltaTime (main_loop main_init frames).
Proof.
  cbv zeta.
  assert (H0 : 0 <= deltaTime (@main_init R R _ _)).
  { cbn. rewrite Q2R_int. lra. }
  assert (Hs : Sorted Rle
                 (lastFrame (@main_init R R _ _)
                  :: map (@glfwGetTime R)
                       [mk_FrameInput (fun _ => false) 1 [];
                        mk_FrameInput (fun _ => true) 2 [CursorPos 3 4]])).
  { cbn. rewrite Q2R_int. repeat constructor; lra. }
  exact (conj Hs (@deltaTime_nonnegative _ _ H0 Hs)).
Defined.

Lemma first_cursor_event_keeps_camera_witness :
  firstMouse (@main_init R R _ _) = true /\
  cam (mouse_callback (@main_init R R _ _) 412 77) = cam main_init.
Proof.
  exact (conj eq_refl
           (proj1 (@first_cursor_event_keeps_camera main_init 412 77 eq_refl
                     (inv_pitch app_invariant_init)
                     (inv_frame app_invariant_init)))).
Defined.

Lemma escape_ends_loop_witness :
  let i := mk_FrameInput (fun k => match k with
                                   | GLFW_KEY_ESCAPE | GLFW_KEY_W => true
                                   | _ => false
                                   end) 1 [Scroll 0 2] in
  main_loop (@main_init R R _ _) [i; i; i] = loop_body main_init i.
Proof.
  cbv zeta.
  apply (@escape_ends_loop main_init); reflexivity.
Defined.

(** * Overflow on floats *)

Module IEEE_Overflow.
Import IEEE.

Section Libm.
Variables rest_cos rest_sin : spec_float -> spec_float.

#[local] Hint Extern 0 (FloatOps _ _) =>
  exact (ops (libm_cos rest_cos) (libm_sin rest_sin)) : typeclass_instances.

(* A finite x-offset that makes yaw overflow: the frame is NaN, whatever
   cos and sin return on finite arguments. *)
Lemma yaw_overflow :
  let c := processMouseMovement camera (lit64 (10 ^ 300 # 1))
             (lit64 (0 # 1)) true true in
  yaw c = S754_infinity false /\ pitch c = S754_zero false /\
  worldUp c = mk_vec3 (lit32 (0 # 1)) (lit32 (1 # 1)) (lit32 (0 # 1)) /\
  front c = nan3 /\ right c = nan3 /\ up c = nan3.
Proof. vm_compute. repeat split. Qed.

End Libm.



End IEEE_Overflow.
